(** * paddlescience/solver/utils.py: partitioning and physics losses

    A shallow embedding of [create_inputs_var], [create_labels_var],
    [data_parallel_partition], [l2_norm_square], [compute_bc_loss] and
    [compute_eq_loss].

    Conventions.
    - Python integers that count ranks, rows and indices are [nat];
      [time_step] is a [Z].
    - A numpy array is the list of its rows along the first axis.
    - Tensor elements are real numbers: the arithmetic of the tensor engine
      is taken exact.  [np.sqrt] of a negative number and a division by
      zero leave the real numbers in the program (NaN, inf); statements
      about values are restricted to non-negative weights and non-zero
      scales, where the two agree.
    - A Python exception is the [Err] outcome of the [result] type. *)

From Stdlib Require Import String DecimalString.
From Stdlib Require Import List Arith Lia ZArith Bool.
From Stdlib Require Import Reals Lra.
From Stdlib Require DecimalNat DecimalFacts Finite.
Import ListNotations.

Set Implicit Arguments.

(** ** Outcomes of Python code *)

Inductive exn : Type :=
| IndexError                       (* list or tuple subscript out of range *)
| KeyError (key : string)          (* dict subscript with a missing key *)
| EngineError (msg : string).      (* raised inside the tensor engine *)

Inductive result (A : Type) : Type :=
| Ok (a : A)
| Err (e : exn).

Arguments Ok {A} a.
Arguments Err {A} e.

Definition bind {A B : Type} (r : result A) (k : A -> result B) : result B :=
  match r with
  | Ok a => k a
  | Err e => Err e
  end.

Notation "x <- r ;; k" := (bind r (fun x => k))
  (at level 61, r at next level, right associativity).

(** [for x in xs: s = body(x, s)], stopping at the first exception. *)
Fixpoint for_in {A S : Type} (xs : list A) (body : A -> S -> result S) (s : S)
  : result S :=
  match xs with
  | [] => Ok s
  | x :: xs' => s' <- body x s ;; for_in xs' body s'
  end.

(** [xs[i]] on a Python list, for [i >= 0]. *)
Definition list_get {A : Type} (xs : list A) (i : nat) : result A :=
  match nth_error xs i with
  | Some a => Ok a
  | None => Err IndexError
  end.

(** [xs[i] = a] on a Python list, for [i < len(xs)]. *)
Fixpoint list_set {A : Type} (xs : list A) (i : nat) (a : A) : list A :=
  match xs, i with
  | [], _ => []
  | _ :: xs', O => a :: xs'
  | x :: xs', S i' => x :: list_set xs' i' a
  end.

(** [range(n)] and [enumerate(xs)]. *)
Definition range (n : nat) : list nat := seq 0 n.

Definition enumerate {A : Type} (xs : list A) : list (nat * A) :=
  combine (seq 0 (length xs)) xs.

(** [str(i)] for a non-negative integer. *)
Definition str (i : nat) : string := NilZero.string_of_uint (Nat.to_uint i).

(** ** Data-parallel partitioning *)

Module Partition.

(** [a[start:end]] for non-negative bounds: out-of-range bounds are clamped
    and [end < start] gives the empty array. *)
Definition slice {A : Type} (start end_ : nat) (a : list A) : list A :=
  firstn (end_ - start) (skipn start a).

(** The local batch size of lines 40-45 and 64-68. *)
Definition local_batch_size (nranks rank gbsz : nat) : nat :=
  let lbsz := gbsz / nranks in
  if rank =? nranks - 1 then lbsz + gbsz mod nranks else lbsz.

Record static_data : Type := mk_static_data {
  var_name : string;
  var_shape : list nat;
  var_dtype : string;
  stop_gradient : bool
}.

(** [create_inputs_var], on the shapes of the input arrays. *)
Definition create_inputs_var (nranks rank : nat) (inputs : list (list nat))
  : result (list static_data) :=
  for_in (range (length inputs))
    (fun i inputs_var =>
       shape <- list_get inputs i ;;
       shape <-
         (if 1 <? nranks then
            gbsz <- list_get shape 0 ;;
            Ok (list_set shape 0 (local_batch_size nranks rank gbsz))
          else Ok shape) ;;
       Ok (inputs_var ++
             [mk_static_data ("input" ++ str i)%string shape "float32" false]))
    [].

(** [create_labels_var]; only the number of labels is read from [labels]. *)
Definition create_labels_var {L : Type} (nranks rank : nat) (labels : list L)
  (npoints data_size : nat) : list static_data :=
  map
    (fun i =>
       let shape :=
         if existsb (Nat.eqb i) [0; 1; 2] then [npoints] else [data_size] in
       let shape :=
         if 1 <? nranks
         then [local_batch_size nranks rank (hd 0 shape)]
         else shape in
       mk_static_data ("label" ++ str i)%string shape "float32" false)
    (range (length labels)).

(** Lines 86-92: the rows of one array that belong to [rank]. *)
Definition partition_bounds (nranks rank gbsz : nat) : nat * nat :=
  let lbsz := gbsz / nranks in
  let start := rank * lbsz in
  let end_ := (rank + 1) * lbsz in
  let end_ := if rank =? nranks - 1 then end_ + gbsz mod nranks else end_ in
  (start, end_).

Definition partition_slice {A : Type} (nranks rank : nat) (a : list A)
  : list A :=
  let '(start, end_) := partition_bounds nranks rank (length a) in
  slice start end_ a.

(** [data_parallel_partition]: the list [data] is updated in place, entry by
    entry, and returned. *)
Definition data_parallel_partition {A : Type} (nranks rank : nat)
  (data : list (list A)) (time_step : Z) : list (list A) :=
  if nranks <=? 1 then data
  else
    fold_left
      (fun data i =>
         if (0 <? time_step)%Z && existsb (Nat.eqb i) [0; 1; 2; 7; 8; 9]
         then data
         else
           match nth_error data i with
           | Some a => list_set data i (partition_slice nranks rank a)
           | None => data
           end)
      (range (length data)) data.

End Partition.

(** ** Tensors over the real numbers *)

Module Tensor.

Local Open Scope R_scope.

(** [paddle.sum] of a 1-D tensor, and the sum of the squares of its
    elements. *)
Definition sum (x : list R) : R := fold_right Rplus 0 x.

Definition sum_squares (x : list R) : R := sum (map (fun e => e * e) x).

(** [paddle.norm(x, p=2)] on the elements of [x]. *)
Definition norm (x : list R) : R := sqrt (sum_squares x).

(** [l2_norm_square(x, scale=None)]. *)
Definition l2_norm_square (x : list R) (scale : option R) : R :=
  let l2_norm :=
    match scale with
    | None => norm x
    | Some scale => norm (map (fun e => e * scale) x) / scale
    end in
  l2_norm * l2_norm.

(** The outcome of a 1-D tensor expression. *)
Definition tensor : Type := result (list R).

Fixpoint map2 (op : R -> R -> R) (a b : list R) : list R :=
  match a, b with
  | x :: a', y :: b' => op x y :: map2 op a' b'
  | _, _ => []
  end.

(** An elementwise operation of the engine on two 1-D tensors: equal
    lengths, or one of them of length 1, which is repeated. *)
Definition broadcast (op : R -> R -> R) (a b : list R) : tensor :=
  if length a =? length b then Ok (map2 op a b)
  else if length a =? 1 then Ok (map (op (hd 0 a)) b)
  else if length b =? 1 then Ok (map (fun x => op x (hd 0 b)) a)
  else Err (EngineError "broadcast").

Definition elementwise (op : R -> R -> R) (a b : tensor) : tensor :=
  x <- a ;; y <- b ;; broadcast op x y.

(** A tensor and a Python or numpy number, in this order and in the other. *)
Definition scalar_right (op : R -> R -> R) (a : tensor) (k : R) : tensor :=
  x <- a ;; Ok (map (fun e => op e k) x).

Definition scalar_left (op : R -> R -> R) (k : R) (a : tensor) : tensor :=
  x <- a ;; Ok (map (fun e => op k e) x).

Declare Scope tensor_scope.
Delimit Scope tensor_scope with T.
Notation "a + b" := (elementwise Rplus a b) : tensor_scope.
Notation "a - b" := (elementwise Rminus a b) : tensor_scope.
Notation "a * b" := (elementwise Rmult a b) : tensor_scope.
Notation "a -: k" := (scalar_right Rminus a k)
  (at level 50, left associativity) : tensor_scope.
Notation "a *: k" := (scalar_right Rmult a k)
  (at level 40, left associativity) : tensor_scope.
Notation "a /: k" := (scalar_right Rdiv a k)
  (at level 40, left associativity) : tensor_scope.
Notation "k :* a" := (scalar_left Rmult k a)
  (at level 40, left associativity) : tensor_scope.

(** Rows of an [N x 3] and of an [N x 4] tensor. *)
Record row3 : Type := mk_row3 { r3_0 : R; r3_1 : R; r3_2 : R }.
Record row4 : Type := mk_row4 { r4_0 : R; r4_1 : R; r4_2 : R; r4_3 : R }.

Definition proj3 (k : nat) (r : row3) : R :=
  match k with
  | 0%nat => r3_0 r
  | 1%nat => r3_1 r
  | _ => r3_2 r
  end.

Definition proj4 (k : nat) (r : row4) : R :=
  match k with
  | 0%nat => r4_0 r
  | 1%nat => r4_1 r
  | 2%nat => r4_2 r
  | _ => r4_3 r
  end.

(** [t[:, k]] for a column [k] that the tensor has. *)
Definition col3 (t : list row3) (k : nat) : list R := map (proj3 k) t.
Definition col4 (t : list row4) (k : nat) : list R := map (proj4 k) t.

(** The right-hand side of a boundary condition: a number or a 1-D tensor. *)
Inductive operand : Type :=
| Scalar (r : R)
| Array (v : list R).

Definition minus_operand (a : tensor) (b : operand) : tensor :=
  match b with
  | Scalar r => (a -: r)%T
  | Array v => (a - Ok v)%T
  end.

(** A Python dict with string keys, in insertion order. *)
Definition dict (V : Type) : Type := list (string * V).

Definition dict_keys {V : Type} (d : dict V) : list string := map fst d.

Fixpoint dict_find {V : Type} (d : dict V) (k : string) : option V :=
  match d with
  | [] => None
  | (k', v) :: d' => if String.eqb k' k then Some v else dict_find d' k
  end.

(** [d[k]] and [d.get(k)]. *)
Definition dict_getitem {V : Type} (d : dict V) (k : string) : result V :=
  match dict_find d k with
  | Some v => Ok v
  | None => Err (KeyError k)
  end.

Definition dict_get {V : Type} (d : dict V) (k : string) : option V :=
  dict_find d k.

End Tensor.

(** ** The two losses *)

Module Loss.

Import Tensor.
Local Open Scope R_scope.

(** A variable of the static graph, as a function of the value fed for
    [inputs]. *)
Definition Var (A : Type) : Type := list row3 -> A.

(** One labelled sub-condition of [labels_attr["bc"][name_b]], and one
    boundary condition of [pde_disc.bc[name_b]]. *)
Record bc_label : Type := mk_bc_label { rhs : operand; weight : R }.
Record bc_cond : Type := mk_bc_cond { name : string }.

Definition name2index : dict nat :=
  [("u"%string, 0%nat); ("v"%string, 1%nat);
   ("w"%string, 2%nat); ("p"%string, 3%nat)].

Section Engine.

(** The engine's reverse-mode differentiation:
    [gradients t] is [paddle.static.gradients([t], [inputs])], the gradient
    of the sum of the elements of [t] with respect to [inputs]. *)
Variable gradients : Var (list R) -> Var (list row3).

(** The engine's answer to [out_el[:, None]]. *)
Variable getitem_none : list row4 -> tensor.

(** [out_el[:, index]]. *)
Definition getitem_col (out_el : list row4) (index : option nat) : tensor :=
  match index with
  | Some k =>
      if (k <? 4)%nat then Ok (col4 out_el k)
      else Err (EngineError "index out of range")
  | None => getitem_none out_el
  end.

(** Lines 117-118, the term added to [bc_loss]:
    [l2_norm_square((out_el[:, index] - rhs_b) * np.sqrt(wgt_b), 10000)]. *)
Definition bc_contribution (out_el : list row4) (index : option nat)
  (rhs_b : operand) (wgt_b : R) : result R :=
  x <- (minus_operand (getitem_col out_el index) rhs_b *: sqrt wgt_b)%T ;;
  Ok (l2_norm_square x (Some 10000)).

(** [compute_bc_loss]: [inputs_attr_bc] is [inputs_attr["bc"]],
    [labels_attr_bc] is [labels_attr["bc"]], [pde_disc_bc] is
    [pde_disc.bc]. *)
Definition compute_bc_loss {I : Type} (inputs_attr_bc : dict I)
  (labels_attr_bc : dict (list bc_label)) (outputs_var : list (list row4))
  (pde_disc_bc : dict (list bc_cond)) : result R :=
  let bc_loss := 0 in
  for_in (enumerate (dict_keys inputs_attr_bc))
    (fun '(i, name_b) bc_loss =>
       out_el <- list_get outputs_var (i + 1) ;;
       conds <- dict_getitem pde_disc_bc name_b ;;
       for_in (range (length conds))
         (fun j bc_loss =>
            labels <- dict_getitem labels_attr_bc name_b ;;
            label <- list_get labels j ;;
            let rhs_b := rhs label in
            let wgt_b := weight label in
            cond <- list_get conds j ;;
            let index := dict_get name2index (name cond) in
            term <- bc_contribution out_el index rhs_b wgt_b ;;
            Ok (bc_loss + term))
         bc_loss)
    bc_loss.

(** [t[:, k]] on graph variables. *)
Definition column (t : Var (list row3)) (k : nat) : Var (list R) :=
  fun X => col3 (t X) k.

Definition column4 (t : Var (list row4)) (k : nat) : Var (list R) :=
  fun X => col4 (t X) k.

Section EqLoss.

(** The value fed for [inputs]; the graph variables are evaluated there. *)
Variable inputs : list row3.

Definition at_inputs (t : Var (list R)) : tensor := Ok (t inputs).

Local Notation "t [:, k ]" := (at_inputs (column t k))
  (at level 1, left associativity, format "t [:,  k ]").

(** [compute_eq_loss(inputs, outputs, labels_var)]: [outputs] is the graph
    variable computed from [inputs], the result is the value of the loss
    when [inputs] is fed. *)
Definition compute_eq_loss (outputs : Var (list row4))
  (labels_var : list (list R)) : result R :=
  let x := col3 inputs 0 in
  let y := col3 inputs 1 in
  let z := col3 inputs 2 in
  let u := column4 outputs 0 in
  let v := column4 outputs 1 in
  let w := column4 outputs 2 in
  let p := column4 outputs 3 in
  u_n <- list_get labels_var 0 ;;
  v_n <- list_get labels_var 1 ;;
  w_n <- list_get labels_var 2 ;;
  let jac0 := gradients u in
  let jac1 := gradients v in
  let jac2 := gradients w in
  let jac3 := gradients p in
  let hes0 := gradients (column jac0 0) in
  let hes1 := gradients (column jac0 1) in
  let hes2 := gradients (column jac0 2) in
  let hes3 := gradients (column jac1 0) in
  let hes4 := gradients (column jac1 1) in
  let hes5 := gradients (column jac1 2) in
  let hes6 := gradients (column jac2 0) in
  let hes7 := gradients (column jac2 1) in
  let hes8 := gradients (column jac2 2) in
  let nu := 0.01 in
  let rho := 1 in
  let dt := 1 in
  (* from here on the variables stand for their values at [inputs] *)
  let u := at_inputs u in
  let v := at_inputs v in
  let w := at_inputs w in
  let u_n : tensor := Ok u_n in
  let v_n : tensor := Ok v_n in
  let w_n : tensor := Ok w_n in
  let continuty := (jac0[:, 0] + jac1[:, 1] + jac2[:, 2])%T in
  let momentum_x :=
    (u /: dt - u_n /: dt + u * jac0[:, 0] + v * jac0[:, 1] + w * jac0[:, 2]
     - (nu / rho) :* hes0[:, 0] - (nu / rho) :* hes1[:, 1]
     - (nu / rho) :* hes2[:, 2]
     + (1 / rho) :* jac3[:, 0])%T in
  let momentum_y :=
    (v /: dt - v_n /: dt + u * jac1[:, 0] + v * jac1[:, 1] + w * jac1[:, 2]
     - (nu / rho) :* hes3[:, 0] - (nu / rho) :* hes4[:, 1]
     - (nu / rho) :* hes5[:, 2]
     + (1 / rho) :* jac3[:, 1])%T in
  let momentum_z :=
    (w /: dt - w_n /: dt + u * jac2[:, 0] + v * jac2[:, 1] + w * jac2[:, 2]
     - (nu / rho) :* hes6[:, 0] - (nu / rho) :* hes7[:, 1]
     - (nu / rho) :* hes8[:, 2]
     + (1 / rho) :* jac3[:, 2])%T in
  let rhs := 0 in
  let wgt := sqrt 0.01 in
  r0 <- ((continuty -: rhs) *: wgt)%T ;;
  r1 <- ((momentum_x -: rhs) *: wgt)%T ;;
  r2 <- ((momentum_y -: rhs) *: wgt)%T ;;
  r3 <- ((momentum_z -: rhs) *: wgt)%T ;;
  let eq_loss :=
    l2_norm_square r0 None + l2_norm_square r1 None +
    l2_norm_square r2 None + l2_norm_square r3 None in
  Ok eq_loss.

End EqLoss.

End Engine.

End Loss.

(** ** The losses in the words of the specification *)

Module Spec.

Import Tensor Loss.
Local Open Scope R_scope.

(** [tabulate n f] is the 1-D tensor [f 0, ..., f (n - 1)]. *)
Definition tabulate (n : nat) (f : nat -> R) : list R := map f (seq 0 n).

Section Residuals.

Variable gradients : Var (list R) -> Var (list row3).
Variable inputs : list row3.
Variable outputs : Var (list row4).
Variables u_n v_n w_n : list R.

(** Channel [c] of the output at row [i]: [u], [v], [w], [p] for
    [c = 0, 1, 2, 3]. *)
Definition field (c : nat) : Var (list R) := column4 outputs c.

Definition value (f : Var (list R)) (i : nat) : R := nth i (f inputs) 0.

(** The derivative of [f] in direction [k] ([x], [y], [z] for
    [k = 0, 1, 2]), as the engine differentiates. *)
Definition d (f : Var (list R)) (k : nat) : Var (list R) :=
  column (gradients f) k.

Definition laplacian (f : Var (list R)) (i : nat) : R :=
  value (d (d f 0) 0) i + value (d (d f 1) 1) i + value (d (d f 2) 2) i.

Definition nu : R := 0.01.
Definition rho : R := 1.
Definition dt : R := 1.

(** continuity = du/dx + dv/dy + dw/dz *)
Definition continuity (i : nat) : R :=
  value (d (field 0) 0) i + value (d (field 1) 1) i + value (d (field 2) 2) i.

(** The momentum residual of velocity component [c] with previous-step
    labels [f_n]. *)
Definition momentum (c : nat) (f_n : list R) (i : nat) : R :=
  let f := field c in
  (value f i - nth i f_n 0) / dt
  + value (field 0) i * value (d f 0) i
  + value (field 1) i * value (d f 1) i
  + value (field 2) i * value (d f 2) i
  - nu / rho * laplacian f i
  + 1 / rho * value (d (field 3) c) i.

(** The four residuals, one element for each row of [inputs]. *)
Definition residuals : list (list R) :=
  let n := length inputs in
  [tabulate n continuity; tabulate n (momentum 0 u_n);
   tabulate n (momentum 1 v_n); tabulate n (momentum 2 w_n)].

(** 0.01 times the sum of the squared L2 norms of the four residuals. *)
Definition eq_loss : R := 0.01 * sum (map sum_squares residuals).

(** The tensors of one evaluation have the shapes the program expects:
    the output, the gradients of the four channels, the gradients of the
    columns of the gradients of the velocity, and the labels have one row
    for each row of [inputs]. *)
Definition eq_shapes : Prop :=
  length (outputs inputs) = length inputs /\
  (forall c, (c < 4)%nat ->
     length (gradients (field c) inputs) = length inputs) /\
  (forall c k, (c < 3)%nat -> (k < 3)%nat ->
     length (gradients (d (field c) k) inputs) = length inputs) /\
  length u_n = length inputs /\
  length v_n = length inputs /\
  length w_n = length inputs.

End Residuals.

(** The fixed mapping from channel names to columns. *)
Definition channel (name : string) : nat :=
  if String.eqb name "u" then 0
  else if String.eqb name "v" then 1
  else if String.eqb name "w" then 2
  else 3.

Definition known_names : list string :=
  ["u"%string; "v"%string; "w"%string; "p"%string].

(** [out[:, index] - rhs]. *)
Definition deviation (column : list R) (b : operand) : list R :=
  match b with
  | Scalar r => map (fun e => e - r) column
  | Array v => map2 Rminus column v
  end.

(** wgt * ||out[:, index] - rhs||_2^2 *)
Definition bc_term (out_el : list row4) (cond : bc_cond) (label : bc_label)
  : R :=
  weight label *
  sum_squares (deviation (col4 out_el (channel (name cond))) (rhs label)).

Definition lookup {V : Type} (d : dict (list V)) (k : string) : list V :=
  match dict_find d k with
  | Some v => v
  | None => []
  end.

(** The sum over the boundaries, the i-th one on [outputs_var[i+1]], and
    over the sub-conditions of each. *)
Definition bc_loss (keys : list string)
  (labels_attr_bc : dict (list bc_label)) (outputs_var : list (list row4))
  (pde_disc_bc : dict (list bc_cond)) : R :=
  sum (map
         (fun '(i, name_b) =>
            sum (map
                   (fun '(cond, label) =>
                      bc_term (nth (i + 1) outputs_var []) cond label)
                   (combine (lookup pde_disc_bc name_b)
                            (lookup labels_attr_bc name_b))))
         (enumerate keys)).

(** The right-hand side is a number or has one element for each row. *)
Definition rhs_shape (out_el : list row4) (b : operand) : Prop :=
  match b with
  | Scalar _ => True
  | Array v => length v = length out_el
  end.

(** The configuration of the boundaries is consistent: every boundary has
    its output tensor, its conditions and at least as many labels, every
    condition is on one of the four channels, and the weights are not
    negative. *)
Definition bc_well_formed (keys : list string)
  (labels_attr_bc : dict (list bc_label)) (outputs_var : list (list row4))
  (pde_disc_bc : dict (list bc_cond)) : Prop :=
  forall i name_b, nth_error keys i = Some name_b ->
    exists out_el conds labels,
      nth_error outputs_var (i + 1) = Some out_el /\
      dict_find pde_disc_bc name_b = Some conds /\
      dict_find labels_attr_bc name_b = Some labels /\
      (length conds <= length labels)%nat /\
      Forall (fun cond => In (name cond) known_names) conds /\
      Forall (fun label => 0 <= weight label /\ rhs_shape out_el (rhs label))
             labels.

(** No sub-condition of any boundary deviates from its target. *)
Definition bc_zero_mismatch (keys : list string)
  (labels_attr_bc : dict (list bc_label)) (outputs_var : list (list row4))
  (pde_disc_bc : dict (list bc_cond)) : Prop :=
  forall i name_b, nth_error keys i = Some name_b ->
    Forall
      (fun '(cond, label) =>
         Forall (fun e => e = 0)
           (deviation (col4 (nth (i + 1) outputs_var []) (channel (name cond)))
                      (rhs label)))
      (combine (lookup pde_disc_bc name_b) (lookup labels_attr_bc name_b)).

Definition weights_nonneg (labels_attr_bc : dict (list bc_label)) : Prop :=
  Forall (fun entry => Forall (fun label => 0 <= weight label) (snd entry))
         labels_attr_bc.

(** The variable declared for the [i]-th input array of shape [shape], and
    for the [i]-th label: the first dimension is the local batch size. *)
Definition input_var (nranks rank i : nat) (shape : list nat)
  : Partition.static_data :=
  Partition.mk_static_data ("input" ++ str i)%string
    (if (1 <? nranks)%nat
     then Partition.local_batch_size nranks rank (hd 0%nat shape) :: tl shape
     else shape)
    "float32" false.

Definition label_var (nranks rank npoints data_size i : nat)
  : Partition.static_data :=
  let gbsz := if (i <? 3)%nat then npoints else data_size in
  Partition.mk_static_data ("label" ++ str i)%string
    [if (1 <? nranks)%nat
     then Partition.local_batch_size nranks rank gbsz
     else gbsz]
    "float32" false.

End Spec.

(** ** What the engine's gradients are *)

Module Calculus.

Import Tensor Loss.
Local Open Scope R_scope.

Definition zero_row : row3 := mk_row3 0 0 0.

(** Row [r] with coordinate [k] replaced by [t]. *)
Definition row_set (k : nat) (t : R) (r : row3) : row3 :=
  match k with
  | 0%nat => mk_row3 t (r3_1 r) (r3_2 r)
  | 1%nat => mk_row3 (r3_0 r) t (r3_2 r)
  | _ => mk_row3 (r3_0 r) (r3_1 r) t
  end.

(** [X] with the entry in row [i] and column [k] replaced by [t]. *)
Definition set_entry (X : list row3) (i k : nat) (t : R) : list row3 :=
  match nth_error X i with
  | Some r => list_set X i (row_set k t r)
  | None => X
  end.

Definition entry (X : list row3) (i k : nat) : R :=
  proj3 k (nth i X zero_row).

(** [l] is the partial derivative of the scalar [F] at [X] with respect to
    the entry in row [i] and column [k]. *)
Definition partial (F : list row3 -> R) (X : list row3) (i k : nat) (l : R)
  : Prop :=
  derivable_pt_lim (fun t => F (set_entry X i k t)) (entry X i k) l.

(** [GT] is the gradient, with respect to [inputs], of the sum of the
    elements of [T]: what [paddle.static.gradients([T], [inputs])] is. *)
Definition is_gradient (T : Var (list R)) (GT : Var (list row3)) : Prop :=
  forall X,
    length (GT X) = length X /\
    forall i k, (i < length X)%nat -> (k < 3)%nat ->
      partial (fun X' => sum (T X')) X i k (entry (GT X) i k).

(** The engine differentiates correctly the thirteen targets of
    [compute_eq_loss]: the four output channels and the three columns of
    the gradient of each velocity component. *)
Definition engine_correct (gradients : Var (list R) -> Var (list row3))
  (outputs : Var (list row4)) : Prop :=
  (forall c, (c < 4)%nat ->
     is_gradient (column4 outputs c) (gradients (column4 outputs c))) /\
  (forall c k, (c < 3)%nat -> (k < 3)%nat ->
     is_gradient (column (gradients (column4 outputs c)) k)
                 (gradients (column (gradients (column4 outputs c)) k))).

(** Translation of every row by the offset [c], and the same field seen
    from the translated coordinates. *)
Definition row_add (c r : row3) : row3 :=
  mk_row3 (r3_0 r + r3_0 c) (r3_1 r + r3_1 c) (r3_2 r + r3_2 c).

Definition row_opp (c : row3) : row3 :=
  mk_row3 (- r3_0 c) (- r3_1 c) (- r3_2 c).

Definition shift (c : row3) (X : list row3) : list row3 := map (row_add c) X.

Definition translated (c : row3) (outputs : Var (list row4))
  : Var (list row4) :=
  fun X => outputs (shift (row_opp c) X).

(** The sum of the elements of [T] is affine in every entry of [inputs],
    with slope [a k] along column [k]. *)
Definition sum_affine (T : Var (list R)) (a : nat -> R) : Prop :=
  forall X i k t, (i < length X)%nat -> (k < 3)%nat ->
    sum (T (set_entry X i k t)) = sum (T X) + a k * (t - entry X i k).

End Calculus.

(** ** Sample data *)

Module Examples.

Import Tensor Loss.
Local Open Scope R_scope.

(** An engine that refuses [None] as an index, and one that reads it as
    the first column. *)
Definition reject_none : list row4 -> tensor :=
  fun _ => Err (EngineError "None index").

Definition first_column_for_none : list row4 -> tensor :=
  fun out_el => Ok (col4 out_el 0).

(** Two boundaries, the first with two sub-conditions. *)
Definition inputs_attr_bc : dict unit :=
  [("inlet"%string, tt); ("wall"%string, tt)].

Definition outputs_var : list (list row4) :=
  [[mk_row4 0 0 0 0];
   [mk_row4 1 0 0 2; mk_row4 3 0 0 2];
   [mk_row4 0 1 0 0]].

Definition pde_disc_bc : dict (list bc_cond) :=
  [("inlet"%string, [mk_bc_cond "u"; mk_bc_cond "p"]);
   ("wall"%string, [mk_bc_cond "v"])].

Definition labels_attr_bc : dict (list bc_label) :=
  [("inlet"%string, [mk_bc_label (Array [1; 1]) 1; mk_bc_label (Scalar 2) 4]);
   ("wall"%string, [mk_bc_label (Scalar 0) 2])].

(** One boundary with one sub-condition of weight [w] on [u], or on the
    channel [nm]. *)
Definition wall_labels (w : R) : dict (list bc_label) :=
  [("wall"%string, [mk_bc_label (Scalar 0) w])].

Definition wall_outputs : list (list row4) :=
  [[]; [mk_row4 1 0 0 0]].

Definition wall_conds (nm : string) : dict (list bc_cond) :=
  [("wall"%string, [mk_bc_cond nm])].

Definition wall_attr : dict unit := [("wall"%string, tt)].

(** An engine that differentiates by a forward difference of step 1,
    which is exact on what is affine in every entry. *)
Definition forward_difference (T : Var (list R)) (X : list row3) (i k : nat)
  : R :=
  sum (T (Calculus.set_entry X i k (Calculus.entry X i k + 1))) - sum (T X).

Definition fd_gradients : Var (list R) -> Var (list row3) :=
  fun T X =>
    map (fun i => mk_row3 (forward_difference T X i 0)
                          (forward_difference T X i 1)
                          (forward_difference T X i 2))
        (seq 0 (length X)).

(** The field u = x + 2y, v = 3z, w = x - y, p = 5x + 1, two points, the
    labels of the previous step and an offset. *)
Definition affine_field : Var (list row4) :=
  fun X =>
    map (fun r => mk_row4 (r3_0 r + 2 * r3_1 r) (3 * r3_2 r)
                          (r3_0 r - r3_1 r) (5 * r3_0 r + 1))
        X.

(** The derivatives of the four channels of [affine_field] along x, y
    and z. *)
Definition affine_slopes (ch : nat) : nat -> R :=
  match ch with
  | 0%nat => fun k => proj3 k (mk_row3 1 2 0)
  | 1%nat => fun k => proj3 k (mk_row3 0 0 3)
  | 2%nat => fun k => proj3 k (mk_row3 1 (-1) 0)
  | _ => fun k => proj3 k (mk_row3 5 0 0)
  end.

Definition two_points : list row3 := [mk_row3 0 0 0; mk_row3 1 2 3].

Definition two_labels : list (list R) := [[0; 1]; [2; 0]; [1; 1]].

Definition offset : row3 := mk_row3 1 (-2) 4.

(** The example of the specification: one point at the origin, the output
    tensor [[0, 0, 0, 0]] and zero labels. *)
Definition origin : list row3 := [mk_row3 0 0 0].

Definition zero_output : Var (list row4) := fun _ => [mk_row4 0 0 0 0].

Definition zero_labels : list (list R) := [[0]; [0]; [0]].

(** The label that the output of [wall_outputs] meets. *)
Definition matched_labels : dict (list bc_label) :=
  [("wall"%string, [mk_bc_label (Scalar 1) 3])].



End Examples.

(** ** The fetch operators of a program *)

Module Program.

Import Tensor.

(** An entry of [fetch_list] after [_check_fetch_list]: a [Variable] or the
    name of one, which is what the assertion of line 205 asks for; both
    are recorded by name. *)
Inductive fetch_item : Type :=
| ItemVariable (name : string)
| ItemName (name : string).

Definition item_name (var : fetch_item) : string :=
  match var with
  | ItemVariable name => name
  | ItemName name => name
  end.

Record var_info : Type := mk_var_info {
  info_type : string;
  persistable : bool
}.

(** An operator of a block, as [append_op] describes it. *)
Record op : Type := mk_op {
  op_type : string;
  op_inputs : dict (list string);
  op_outputs : dict (list string);
  op_attrs : dict nat
}.

(** The global block of a program: its variables and its operators. *)
Record program : Type := mk_program {
  vars : dict var_info;
  ops : list op
}.

(** [del ops[idx]], which is what [global_block._remove_op(idx)] does to
    the list of operators. *)
Fixpoint remove_at {A : Type} (idx : nat) (l : list A) : list A :=
  match l, idx with
  | [], _ => []
  | _ :: l', O => l'
  | x :: l', S idx' => x :: remove_at idx' l'
  end.

(** [_remove_fetch_ops]: the operators of the clone are visited from the
    last index to the first and those of type 'fetch' are removed. *)
Definition _remove_fetch_ops (program : program) : result Program.program :=
  let tmp_program := program in
  let op_num := length (ops tmp_program) in
  ops' <-
    for_in (rev (range op_num))
      (fun idx ops =>
         o <- list_get ops idx ;;
         if String.eqb (op_type o) "fetch"
         then Ok (remove_at idx ops)
         else Ok ops)
      (ops tmp_program) ;;
  Ok (mk_program (vars tmp_program) ops').

Section AddFetchOps.

(** [fluid.executor.has_fetch_operators(global_block, fetch_list,
    fetch_var_name, 'fetch')], which is not part of this repository. *)
Variable has_fetch_operators :
  program -> list fetch_item -> string -> result bool.

(** [_add_fetch_ops]. *)
Definition _add_fetch_ops (program : program) (fetch_list : list fetch_item)
  (fetch_var_name : string) : result Program.program :=
  let tmp_program := program in
  let vars' :=
    match dict_find (vars tmp_program) fetch_var_name with
    | Some _ => vars tmp_program
    | None =>
        vars tmp_program ++
        [(fetch_var_name, mk_var_info "FETCH_LIST" true)]
    end in
  let global_block := mk_program vars' (ops tmp_program) in
  has <- has_fetch_operators global_block fetch_list fetch_var_name ;;
  if negb has then
    ops' <-
      for_in (enumerate fetch_list)
        (fun '(i, var) ops =>
           Ok (ops ++
                 [mk_op "fetch" [("X"%string, [item_name var])]
                    [("Out"%string, [fetch_var_name])]
                    [("col"%string, i)]]))
        (ops global_block) ;;
    Ok (mk_program vars' ops')
  else Ok global_block.

End AddFetchOps.

Definition is_fetch (o : op) : bool := String.eqb (op_type o) "fetch".

End Program.

(** ** Conditions and fields used in the statements *)

Module Conditions.

Import Tensor Loss.
Local Open Scope R_scope.

(** Every subscript that [compute_bc_loss] evaluates finds its element and
    every term can be computed: each boundary has its output tensor and its
    conditions, and each condition has its label and a term. *)
Definition bc_runs (getitem_none : list row4 -> tensor)
  (keys : list string) (labels_attr_bc : dict (list bc_label))
  (outputs_var : list (list row4)) (pde_disc_bc : dict (list bc_cond))
  : Prop :=
  forall i name_b, nth_error keys i = Some name_b ->
    exists out_el conds,
      nth_error outputs_var (i + 1) = Some out_el /\
      dict_find pde_disc_bc name_b = Some conds /\
      forall j cond, nth_error conds j = Some cond ->
        exists labels label c,
          dict_find labels_attr_bc name_b = Some labels /\
          nth_error labels j = Some label /\
          bc_contribution getitem_none out_el
            (dict_get name2index (name cond)) (rhs label) (weight label)
          = Ok c.

Definition weights_positive (labels_attr_bc : dict (list bc_label)) : Prop :=
  Forall (fun entry => Forall (fun label => 0 < weight label) (snd entry))
         labels_attr_bc.

(** The same output on every row, and the labels of a previous step with
    the same velocity. *)
Definition uniform_flow (row : row4) : Var (list row4) :=
  fun X => map (fun _ => row) X.

Definition uniform_labels (row : row4) (n : nat) : list (list R) :=
  [repeat (r4_0 row) n; repeat (r4_1 row) n; repeat (r4_2 row) n].

(** The field [outputs] with the constant [k] added to the pressure. *)
Definition add_pressure (k : R) (outputs : Var (list row4))
  : Var (list row4) :=
  fun X =>
    map (fun r => mk_row4 (r4_0 r) (r4_1 r) (r4_2 r) (r4_3 r + k))
        (outputs X).

(** Every weight of [labels_attr_bc] multiplied by [k]. *)
Definition scale_weights (k : R) (labels_attr_bc : dict (list bc_label))
  : dict (list bc_label) :=
  map (fun entry =>
         (fst entry,
          map (fun label => mk_bc_label (rhs label) (k * weight label))
              (snd entry)))
      labels_attr_bc.


End Conditions.

(** ** A sample program *)

Module Samples.

Import Program.

(** An engine that reports no fetch operator. *)
Definition no_fetch_operators :
  program -> list fetch_item -> string -> result bool :=
  fun _ _ _ => Ok false.

Definition two_ops : program :=
  mk_program [] [mk_op "mul" [] [] []; mk_op "relu" [] [] []].

Definition two_ops_with_fetch : program :=
  mk_program [("fetch"%string, mk_var_info "FETCH_LIST" true)]
    [mk_op "mul" [] [] []; mk_op "relu" [] [] [];
     mk_op "fetch" [("X"%string, ["loss"%string])]
       [("Out"%string, ["fetch"%string])] [("col"%string, 0)];
     mk_op "fetch" [("X"%string, ["u"%string])]
       [("Out"%string, ["fetch"%string])] [("col"%string, 1)]].

End Samples.

(** * Properties *)

(** ** The control operators *)

Lemma bind_ok_inv (A B : Type) (r : result A) (k : A -> result B) (b : B) :
  bind r k = Ok b -> exists a, r = Ok a /\ k a = Ok b.
Proof.
  destruct r as [a | e]; simpl; intros H.
  - exists a; split; [reflexivity | exact H].
  - discriminate H.
Qed.

Lemma for_in_app (A S : Type) (body : A -> S -> result S) (xs ys : list A)
  (s : S) :
  for_in (xs ++ ys) body s = s' <- for_in xs body s ;; for_in ys body s'.
Proof.
  revert s; induction xs as [| x xs IH]; intros s; simpl.
  - reflexivity.
  - destruct (body x s) as [s' | e]; simpl; [apply IH | reflexivity].
Qed.

(** An invariant of the loop state holds of the state a loop returns. *)
Lemma for_in_invariant (A S : Type) (P : S -> Prop)
  (body : A -> S -> result S) (xs : list A) :
  (forall x s s', In x xs -> P s -> body x s = Ok s' -> P s') ->
  forall s s', P s -> for_in xs body s = Ok s' -> P s'.
Proof.
  induction xs as [| x xs IH]; simpl; intros Hbody s s' Hs Hrun.
  - injection Hrun as <-; exact Hs.
  - apply bind_ok_inv in Hrun as (s1 & Hx & Hrest).
    apply IH with (s := s1); eauto.
Qed.

Lemma list_get_nth_error (A : Type) (xs : list A) (i : nat) (a : A) :
  nth_error xs i = Some a -> list_get xs i = Ok a.
Proof. unfold list_get; intros ->; reflexivity. Qed.

Lemma length_list_set (A : Type) (xs : list A) (i : nat) (a : A) :
  length (list_set xs i a) = length xs.
Proof.
  revert i; induction xs as [| x xs IH]; intros [| i]; simpl; auto.
Qed.

Lemma nth_error_list_set (A : Type) (xs : list A) (i j : nat) (a : A) :
  nth_error (list_set xs i a) j =
  if (i =? j) && (i <? length xs) then Some a else nth_error xs j.
Proof.
  revert i j; induction xs as [| x xs IH]; intros i j; simpl.
  - destruct i, j; simpl; rewrite ?Bool.andb_false_r; reflexivity.
  - destruct i as [| i], j as [| j]; simpl; try reflexivity.
    rewrite IH. reflexivity.
Qed.

(** ** Loops that may fail *)

Lemma for_in_ok_all (A S : Type) (body : A -> S -> result S) (xs : list A)
  (s s' : S) :
  for_in xs body s = Ok s' ->
  forall x, In x xs -> exists s1 s2, body x s1 = Ok s2.
Proof.
  revert s; induction xs as [| y xs IH]; intros s H x Hin.
  - destruct Hin.
  - cbn [for_in] in H. apply bind_ok_inv in H as (s1 & Hy & H).
    destruct Hin as [<- | Hin].
    + now exists s, s1.
    + now apply (IH s1).
Qed.

Lemma for_in_total (A S : Type) (body : A -> S -> result S) (xs : list A) :
  (forall x s, In x xs -> exists s', body x s = Ok s') ->
  forall s, exists s', for_in xs body s = Ok s'.
Proof.
  induction xs as [| y xs IH]; intros Hbody s.
  - now exists s.
  - destruct (Hbody y s (or_introl eq_refl)) as [s1 Hy].
    destruct (IH (fun x t Hin => Hbody x t (or_intror Hin)) s1) as [s' H].
    exists s'. cbn [for_in]. now rewrite Hy.
Qed.

Lemma for_in_ext (A S : Type) (body body' : A -> S -> result S)
  (xs : list A) :
  (forall x s, In x xs -> body x s = body' x s) ->
  forall s, for_in xs body s = for_in xs body' s.
Proof.
  induction xs as [| y xs IH]; intros Hbody s.
  - reflexivity.
  - cbn [for_in]. rewrite (Hbody y s (or_introl eq_refl)).
    destruct (body' y s) as [s1 | e]; [| reflexivity].
    cbn [bind]. apply IH. intros x t Hin. apply Hbody. now right.
Qed.

(** Two loops whose steps keep a relation between their states. *)
Lemma for_in_related (A S : Type) (rel : S -> S -> Prop)
  (body body' : A -> S -> result S) (xs : list A) :
  (forall x s t s', In x xs -> rel s t -> body x s = Ok s' ->
     exists t', body' x t = Ok t' /\ rel s' t') ->
  forall s t s', rel s t -> for_in xs body s = Ok s' ->
    exists t', for_in xs body' t = Ok t' /\ rel s' t'.
Proof.
  induction xs as [| y xs IH]; intros Hbody s t s' Hrel H.
  - injection H as <-. now exists t.
  - cbn [for_in] in H. apply bind_ok_inv in H as (s1 & Hy & H).
    destruct (Hbody y s t s1 (or_introl eq_refl) Hrel Hy) as (t1 & Hy' & H1).
    destruct (IH (fun x a b c Hin => Hbody x a b c (or_intror Hin))
                 s1 t1 s' H1 H) as (t' & H' & Hrel').
    exists t'. cbn [for_in]. rewrite Hy'. now split.
Qed.

Lemma enumerate_in (A : Type) (xs : list A) (i : nat) (a : A) :
  nth_error xs i = Some a -> In (i, a) (enumerate xs).
Proof.
  unfold enumerate.
  assert (H : forall s, nth_error xs i = Some a ->
                        In ((s + i)%nat, a)
                           (combine (seq s (length xs)) xs)).
  { revert i; induction xs as [| x xs IH]; intros i s Hi.
    - destruct i; discriminate Hi.
    - destruct i as [| i]; simpl in Hi.
      + injection Hi as <-. left. f_equal. lia.
      + right. replace (s + S i)%nat with (S s + i)%nat by lia.
        now apply IH. }
  intros Hi. exact (H 0%nat Hi).
Qed.

Lemma list_get_ok (A : Type) (xs : list A) (i : nat) (a : A) :
  list_get xs i = Ok a -> nth_error xs i = Some a.
Proof.
  unfold list_get. destruct (nth_error xs i); [| discriminate].
  intros H. now injection H as <-.
Qed.

Lemma dict_getitem_ok (V : Type) (d : Tensor.dict V) (k : string) (v : V) :
  Tensor.dict_getitem d k = Ok v -> Tensor.dict_find d k = Some v.
Proof.
  unfold Tensor.dict_getitem. destruct (Tensor.dict_find d k);
    [| discriminate].
  intros H. now injection H as <-.
Qed.

(** ** Data-parallel partitioning *)

Section PartitionFacts.

Import Partition.

Variable A : Type.

Lemma firstn_skipn_add (a b : nat) (l : list A) :
  firstn a l ++ firstn b (skipn a l) = firstn (a + b) l.
Proof.
  revert l; induction a as [| a IH]; intros l; simpl.
  - reflexivity.
  - destruct l as [| x l]; simpl.
    + now rewrite firstn_nil.
    + now rewrite IH.
Qed.

Lemma length_slice (s e : nat) (l : list A) :
  length (slice s e l) = Nat.min (e - s) (length l - s).
Proof. unfold slice. now rewrite length_firstn, length_skipn. Qed.

(** The bounds of the ranks follow one another from 0 to [g]. *)
Lemma partition_bounds_first (n g : nat) :
  fst (partition_bounds n 0 g) = 0.
Proof. unfold partition_bounds; simpl. now destruct (0 =? n - 1). Qed.

Lemma partition_bounds_next (n r g : nat) :
  r + 1 < n ->
  snd (partition_bounds n r g) = fst (partition_bounds n (r + 1) g).
Proof.
  intros Hr. unfold partition_bounds.
  destruct (Nat.eqb_spec r (n - 1)) as [E | _]; [lia |].
  now destruct (r + 1 =? n - 1).
Qed.

Lemma partition_bounds_last (n g : nat) :
  1 <= n -> snd (partition_bounds n (n - 1) g) = g.
Proof.
  intros Hn. unfold partition_bounds. rewrite Nat.eqb_refl. simpl.
  replace (n - 1 + 1) with n by lia.
  rewrite (Nat.div_mod_eq g n) at 3. lia.
Qed.

Lemma partition_bounds_le (n r g : nat) :
  fst (partition_bounds n r g) <= snd (partition_bounds n r g).
Proof.
  unfold partition_bounds. destruct (r =? n - 1); simpl; lia.
Qed.

Lemma partition_bounds_inner (n r g : nat) :
  r + 1 < n ->
  partition_bounds n r g = (r * (g / n), (r + 1) * (g / n)).
Proof.
  intros Hr. unfold partition_bounds.
  destruct (Nat.eqb_spec r (n - 1)) as [E | _]; [lia | reflexivity].
Qed.

Lemma full_ranks_fit (n r g : nat) : r <= n -> r * (g / n) <= g.
Proof.
  intros Hr. destruct n as [| n].
  - replace r with 0 by lia. lia.
  - transitivity (S n * (g / S n)).
    + apply Nat.mul_le_mono_r; exact Hr.
    + apply Nat.Div0.mul_div_le.
Qed.

(** Two different ranks have disjoint ranges. *)
Lemma partition_bounds_disjoint (n r r' g : nat) :
  r < r' -> r' < n ->
  snd (partition_bounds n r g) <= fst (partition_bounds n r' g).
Proof.
  intros Hlt Hn. rewrite partition_bounds_inner by lia.
  unfold partition_bounds; simpl.
  assert (H : (r + 1) * (g / n) <= r' * (g / n))
    by (apply Nat.mul_le_mono_r; lia).
  destruct (r' =? n - 1); simpl; exact H.
Qed.

(** Every row belongs to the range of a rank. *)
Lemma partition_bounds_cover (n g i : nat) :
  1 <= n -> i < g ->
  exists r, r < n /\
    fst (partition_bounds n r g) <= i < snd (partition_bounds n r g).
Proof.
  intros Hn Hi.
  assert (Hlast : fst (partition_bounds n (n - 1) g) = (n - 1) * (g / n)).
  { unfold partition_bounds. now destruct (n - 1 =? n - 1). }
  destruct (Nat.lt_ge_cases i ((n - 1) * (g / n))) as [Hin | Hout].
  - assert (Hpos : g / n <> 0) by (intros E; rewrite E in Hin; lia).
    exists (i / (g / n)).
    assert (Hq : i / (g / n) < n - 1).
    { apply Nat.Div0.div_lt_upper_bound. lia. }
    split; [lia |].
    rewrite partition_bounds_inner by lia. simpl.
    pose proof (Nat.div_mod_eq i (g / n)) as E.
    pose proof (Nat.mod_upper_bound i (g / n) Hpos) as Hm.
    lia.
  - exists (n - 1). split; [lia |].
    rewrite Hlast, partition_bounds_last by exact Hn. lia.
Qed.

Lemma partition_slice_inner (n r : nat) (l : list A) :
  r + 1 < n ->
  partition_slice n r l = firstn (length l / n) (skipn (r * (length l / n)) l).
Proof.
  intros Hr. unfold partition_slice.
  rewrite partition_bounds_inner by exact Hr. unfold slice.
  f_equal. lia.
Qed.

Lemma concat_partition_prefix (n m : nat) (l : list A) :
  m < n ->
  concat (map (fun r => partition_slice n r l) (seq 0 m)) =
  firstn (m * (length l / n)) l.
Proof.
  induction m as [| m IH]; intros Hm.
  - reflexivity.
  - rewrite seq_S, map_app, concat_app, IH by lia. simpl.
    rewrite app_nil_r, partition_slice_inner by lia.
    rewrite firstn_skipn_add. f_equal. lia.
Qed.

(** The slices of the ranks, one after the other, are the whole array. *)
Lemma concat_partition (n : nat) (l : list A) :
  1 <= n ->
  concat (map (fun r => partition_slice n r l) (seq 0 n)) = l.
Proof.
  intros Hn.
  assert (Hseq : seq 0 n = seq 0 (n - 1) ++ [n - 1]).
  { rewrite <- seq_S. f_equal. lia. }
  rewrite Hseq, map_app, concat_app, concat_partition_prefix by lia.
  simpl. rewrite app_nil_r.
  unfold partition_slice.
  pose proof (partition_bounds_last (length l) Hn) as Hlast.
  assert (Hfirst : fst (partition_bounds n (n - 1) (length l)) =
                   (n - 1) * (length l / n)).
  { unfold partition_bounds. now destruct (n - 1 =? n - 1). }
  destruct (partition_bounds n (n - 1) (length l)) as [s e].
  simpl in Hlast, Hfirst. subst s e. unfold slice.
  rewrite firstn_skipn_add.
  pose proof (@full_ranks_fit n (n - 1) (length l)).
  apply firstn_all2. lia.
Qed.

(** The slice of a rank has the local batch size of that rank. *)
Lemma length_partition_slice (n r : nat) (l : list A) :
  1 <= n -> r < n ->
  length (partition_slice n r l) = local_batch_size n r (length l).
Proof.
  intros Hn Hr. unfold partition_slice, local_batch_size.
  destruct (Nat.eqb_spec r (n - 1)) as [E | NE].
  - subst r. pose proof (partition_bounds_last (length l) Hn) as Hlast.
    assert (Hfirst : fst (partition_bounds n (n - 1) (length l)) =
                     (n - 1) * (length l / n)).
    { unfold partition_bounds. now destruct (n - 1 =? n - 1). }
    destruct (partition_bounds n (n - 1) (length l)) as [s e].
    simpl in Hlast, Hfirst. subst s e. rewrite length_slice.
    pose proof (Nat.div_mod_eq (length l) n) as E.
    assert (E' : n * (length l / n) =
                 (n - 1) * (length l / n) + length l / n) by nia.
    lia.
  - rewrite partition_bounds_inner by lia. rewrite length_slice.
    pose proof (@full_ranks_fit n (r + 1) (length l)). lia.
Qed.

(** One pass of the loop of [data_parallel_partition] over the indices
    [s, ..., s + m - 1]: entry [j] is replaced when the loop visits it and
    does not skip it. *)
Lemma partition_loop_nth_error (skip : nat -> bool) (f : list A -> list A)
  (m s j : nat) (data : list (list A)) :
  nth_error
    (fold_left
       (fun data i =>
          if skip i then data
          else match nth_error data i with
               | Some a => list_set data i (f a)
               | None => data
               end)
       (seq s m) data) j =
  if (s <=? j) && (j <? s + m) && negb (skip j)
  then option_map f (nth_error data j)
  else nth_error data j.
Proof.
  revert s data; induction m as [| m IH]; intros s data; simpl.
  - destruct (Nat.leb_spec s j), (Nat.ltb_spec j (s + 0));
      try lia; reflexivity.
  - rewrite IH.
    assert (Hstep : forall k,
      nth_error
        (if skip s then data
         else match nth_error data s with
              | Some a => list_set data s (f a)
              | None => data
              end) k =
      if (s =? k) && negb (skip s)
      then option_map f (nth_error data k)
      else nth_error data k).
    { intros k. destruct (skip s); simpl.
      - now rewrite Bool.andb_false_r.
      - rewrite Bool.andb_true_r.
        destruct (nth_error data s) as [a |] eqn:Ea.
        + rewrite nth_error_list_set.
          assert (Hlt : s < length data)
            by (apply nth_error_Some; congruence).
          apply Nat.ltb_lt in Hlt. rewrite Hlt, Bool.andb_true_r.
          destruct (Nat.eqb_spec s k) as [<- | _];
            [now rewrite Ea | reflexivity].
        + destruct (Nat.eqb_spec s k) as [<- | _];
            [now rewrite Ea | reflexivity]. }
    rewrite Hstep.
    destruct (Nat.eqb_spec s j) as [E | Hne].
    + rewrite E.
      replace (S j <=? j) with false by (symmetry; apply Nat.leb_gt; lia).
      rewrite Nat.leb_refl.
      replace (j <? j + S m) with true by (symmetry; apply Nat.ltb_lt; lia).
      reflexivity.
    + cbn [andb].
      replace (j <? s + S m) with (j <? S s + m) by (f_equal; lia).
      destruct (Nat.leb_spec (S s) j), (Nat.leb_spec s j);
        try lia; reflexivity.
Qed.

Lemma partition_loop_length (skip : nat -> bool) (f : list A -> list A)
  (idx : list nat) (data : list (list A)) :
  length
    (fold_left
       (fun data i =>
          if skip i then data
          else match nth_error data i with
               | Some a => list_set data i (f a)
               | None => data
               end)
       idx data) = length data.
Proof.
  revert data; induction idx as [| i idx IH]; intros data; simpl.
  - reflexivity.
  - rewrite IH. destruct (skip i); [reflexivity |].
    destruct (nth_error data i); [apply length_list_set | reflexivity].
Qed.

(** With a single rank nothing is partitioned. *)
Lemma data_parallel_partition_single (n r : nat) (data : list (list A))
  (time_step : Z) :
  n <= 1 -> data_parallel_partition n r data time_step = data.
Proof.
  intros Hn. unfold data_parallel_partition.
  apply Nat.leb_le in Hn. now rewrite Hn.
Qed.

Lemma data_parallel_partition_length (n r : nat) (data : list (list A))
  (time_step : Z) :
  length (data_parallel_partition n r data time_step) = length data.
Proof.
  unfold data_parallel_partition. destruct (n <=? 1); [reflexivity |].
  apply partition_loop_length with
    (skip := fun i =>
       (0 <? time_step)%Z && existsb (Nat.eqb i) [0; 1; 2; 7; 8; 9]).
Qed.

(** With several ranks, entry [j] is kept when the loop skips it and
    is sliced otherwise. *)
Lemma data_parallel_partition_nth_error (n r : nat) (data : list (list A))
  (time_step : Z) (j : nat) :
  1 < n ->
  nth_error (data_parallel_partition n r data time_step) j =
  if (0 <? time_step)%Z && existsb (Nat.eqb j) [0; 1; 2; 7; 8; 9]
  then nth_error data j
  else option_map (partition_slice n r) (nth_error data j).
Proof.
  intros Hn. unfold data_parallel_partition.
  replace (n <=? 1) with false by (symmetry; apply Nat.leb_gt; lia).
  unfold range.
  rewrite (partition_loop_nth_error
             (fun i => (0 <? time_step)%Z &&
                       existsb (Nat.eqb i) [0; 1; 2; 7; 8; 9])
             (partition_slice n r)).
  destruct ((0 <? time_step)%Z && existsb (Nat.eqb j) [0; 1; 2; 7; 8; 9]).
  - now rewrite Bool.andb_false_r.
  - rewrite Bool.andb_true_r. simpl.
    destruct (Nat.ltb_spec j (length data)) as [Hlt | Hge]; [reflexivity |].
    apply nth_error_None in Hge. now rewrite Hge.
Qed.

End PartitionFacts.

(** The local batch sizes of the ranks add up to the global batch size. *)
Lemma local_batch_sizes_sum (n g : nat) :
  1 <= n ->
  list_sum (map (fun r => Partition.local_batch_size n r g) (seq 0 n)) = g.
Proof.
  intros Hn.
  pose proof (concat_partition (repeat tt g) Hn) as Hcat.
  apply (f_equal (@length unit)) in Hcat.
  rewrite length_concat, map_map, repeat_length in Hcat.
  etransitivity; [| exact Hcat]. f_equal.
  apply map_ext_in. intros r Hr. apply in_seq in Hr.
  rewrite length_partition_slice by lia.
  now rewrite repeat_length.
Qed.

Lemma create_inputs_var_loop (n r : nat) (rest pre : list (list nat))
  (acc : list Partition.static_data) :
  Forall (fun shape => shape <> []) rest ->
  for_in (seq (length pre) (length rest))
    (fun i inputs_var =>
       shape <- list_get (pre ++ rest) i ;;
       shape <-
         (if 1 <? n then
            gbsz <- list_get shape 0 ;;
            Ok (list_set shape 0 (Partition.local_batch_size n r gbsz))
          else Ok shape) ;;
       Ok (inputs_var ++
             [Partition.mk_static_data ("input" ++ str i)%string shape
                "float32" false]))
    acc =
  Ok (acc ++
        map (fun '(i, shape) => Spec.input_var n r i shape)
            (combine (seq (length pre) (length rest)) rest)).
Proof.
  revert pre acc; induction rest as [| shape rest IH]; intros pre acc Hne.
  - simpl. now rewrite app_nil_r.
  - inversion Hne as [| ? ? Hshape Hrest]; subst.
    cbn [length seq for_in combine map].
    unfold list_get at 1.
    rewrite nth_error_app2, Nat.sub_diag by lia. cbn [nth_error bind].
    replace (pre ++ shape :: rest) with ((pre ++ [shape]) ++ rest)
      by (now rewrite <- app_assoc).
    replace (S (length pre)) with (length (pre ++ [shape]))
      by (rewrite length_app; simpl; lia).
    assert (Hdecl :
      (if 1 <? n then
         gbsz <- list_get shape 0 ;;
         Ok (list_set shape 0 (Partition.local_batch_size n r gbsz))
       else Ok shape) =
      Ok (Partition.var_shape (Spec.input_var n r (length pre) shape))).
    { unfold Spec.input_var; simpl. destruct (1 <? n); [| reflexivity].
      destruct shape as [| gbsz shape]; [congruence | reflexivity]. }
    rewrite Hdecl. cbn [bind]. rewrite IH by exact Hrest.
    rewrite <- app_assoc. reflexivity.
Qed.

(** [create_inputs_var] declares one variable for each input array, with
    the local batch size as first dimension. *)
Lemma create_inputs_var_closed (n r : nat) (inputs : list (list nat)) :
  Forall (fun shape => shape <> []) inputs ->
  Partition.create_inputs_var n r inputs =
  Ok (map (fun '(i, shape) => Spec.input_var n r i shape) (enumerate inputs)).
Proof.
  intros Hne. unfold Partition.create_inputs_var, range, enumerate.
  exact (@create_inputs_var_loop n r inputs [] [] Hne).
Qed.

Lemma create_labels_var_closed (L : Type) (n r : nat) (labels : list L)
  (npoints data_size : nat) :
  Partition.create_labels_var n r labels npoints data_size =
  map (Spec.label_var n r npoints data_size) (range (length labels)).
Proof.
  unfold Partition.create_labels_var. apply map_ext. intros i.
  unfold Spec.label_var.
  destruct i as [| [| [| i]]]; simpl; destruct (1 <? n); reflexivity.
Qed.

Lemma partition_bounds_unfold (n r g : nat) :
  Partition.partition_bounds n r g =
  (r * (g / n),
   (r + 1) * (g / n) + (if r =? n - 1 then g mod n else 0)).
Proof.
  unfold Partition.partition_bounds. destruct (r =? n - 1); f_equal; lia.
Qed.

Lemma local_batch_size_unfold (n r g : nat) :
  Partition.local_batch_size n r g =
  g / n + (if r =? n - 1 then g mod n else 0).
Proof.
  unfold Partition.local_batch_size. destruct (r =? n - 1); lia.
Qed.

Lemma partition_slice_nil (A : Type) (n r : nat) :
  Partition.partition_slice n r (@nil A) = [].
Proof.
  unfold Partition.partition_slice, Partition.slice.
  destruct (Partition.partition_bounds n r (length (@nil A))) as [s e].
  now rewrite skipn_nil, firstn_nil.
Qed.

(** An entry that the loop does not skip, for several ranks. *)
Lemma data_parallel_partition_sliced (A : Type) (n r : nat)
  (data : list (list A)) (time_step : Z) (j : nat) :
  1 < n ->
  (time_step <= 0)%Z \/ ~ In j [0; 1; 2; 7; 8; 9] ->
  nth_error (Partition.data_parallel_partition n r data time_step) j =
  option_map (Partition.partition_slice n r) (nth_error data j).
Proof.
  intros Hn Hvisit.
  rewrite data_parallel_partition_nth_error by exact Hn.
  destruct Hvisit as [Hts | Hout].
  - replace (0 <? time_step)%Z with false
      by (symmetry; apply Z.ltb_ge; exact Hts).
    reflexivity.
  - destruct (existsb (Nat.eqb j) [0; 1; 2; 7; 8; 9]) eqn:E.
    + exfalso. apply Hout. apply existsb_exists in E as (i & Hin & Hi).
      apply Nat.eqb_eq in Hi. now subst i.
    + now rewrite Bool.andb_false_r.
Qed.

Lemma nth_data_parallel_partition (A : Type) (n r : nat)
  (data : list (list A)) (time_step : Z) (j : nat) :
  1 < n ->
  (time_step <= 0)%Z \/ ~ In j [0; 1; 2; 7; 8; 9] ->
  nth j (Partition.data_parallel_partition n r data time_step) [] =
  Partition.partition_slice n r (nth j data []).
Proof.
  intros Hn Hvisit.
  pose proof (@data_parallel_partition_sliced A n r data time_step j
                Hn Hvisit) as H.
  destruct (nth_error data j) as [a |] eqn:Ha.
  - rewrite (nth_error_nth _ _ [] H), (nth_error_nth _ _ [] Ha).
    reflexivity.
  - apply nth_error_None in H, Ha.
    rewrite !nth_overflow by assumption.
    symmetry. apply partition_slice_nil.
Qed.

(** C9. For [n >= 1] ranks and a batch of [g] rows, rank [r] is assigned
    the rows from [r * (g div n)] to [(r + 1) * (g div n)], the last rank
    [g mod n] more.  These ranges start at 0, follow one another and end at
    [g]; two ranks have disjoint ranges and every row is in the range of
    exactly one rank; the slices of an array, rank after rank, are the
    array; the slice of a rank has the local batch size that
    [create_inputs_var] and [create_labels_var] declare, and the local
    batch sizes add up to [g].  With at most one rank
    [data_parallel_partition] returns its input; with several ranks every
    entry that it visits is replaced by these rows of the entry, and the
    entries that the ranks 0, ..., n - 1 receive, one after the other, are
    the entry of [data]. *)
Theorem data_parallel_partition_assigns_every_row_once :
  (forall n g, 1 <= n ->
     let bounds r := Partition.partition_bounds n r g in
     (forall r,
        bounds r =
        (r * (g / n),
         (r + 1) * (g / n) + (if r =? n - 1 then g mod n else 0))) /\
     fst (bounds 0) = 0 /\
     (forall r, r + 1 < n -> snd (bounds r) = fst (bounds (r + 1))) /\
     snd (bounds (n - 1)) = g /\
     (forall r r', r < r' -> r' < n -> snd (bounds r) <= fst (bounds r')) /\
     (forall i, i < g ->
        exists r, r < n /\ fst (bounds r) <= i < snd (bounds r) /\
          forall r', r' < n -> fst (bounds r') <= i < snd (bounds r') ->
            r' = r) /\
     (forall (A : Type) (l : list A), length l = g ->
        concat (map (fun r => Partition.partition_slice n r l) (seq 0 n)) = l
        /\ forall r, r < n ->
             length (Partition.partition_slice n r l) =
             Partition.local_batch_size n r g) /\
     (forall r,
        Partition.local_batch_size n r g =
        g / n + (if r =? n - 1 then g mod n else 0)) /\
     list_sum (map (fun r => Partition.local_batch_size n r g) (seq 0 n)) = g)
  /\
  (forall n r (inputs : list (list nat)),
     Forall (fun shape => shape <> []) inputs ->
     Partition.create_inputs_var n r inputs =
     Ok (map (fun '(i, shape) => Spec.input_var n r i shape)
             (enumerate inputs)))
  /\
  (forall (L : Type) n r (labels : list L) npoints data_size,
     Partition.create_labels_var n r labels npoints data_size =
     map (Spec.label_var n r npoints data_size) (range (length labels)))
  /\
  (forall (A : Type) n r (a : list A) i rest npoints data_size,
     1 < n -> r < n ->
     Partition.var_shape (Spec.input_var n r i (length a :: rest)) =
     length (Partition.partition_slice n r a) :: rest /\
     (npoints = length a -> data_size = length a ->
      Partition.var_shape (Spec.label_var n r npoints data_size i) =
      [length (Partition.partition_slice n r a)]))
  /\
  (forall (A : Type) n r (data : list (list A)) time_step,
     n <= 1 -> Partition.data_parallel_partition n r data time_step = data)
  /\
  (forall (A : Type) n r (data : list (list A)) time_step j a,
     1 < n ->
     (time_step <= 0)%Z \/ ~ In j [0; 1; 2; 7; 8; 9] ->
     nth_error data j = Some a ->
     nth_error (Partition.data_parallel_partition n r data time_step) j =
     Some (Partition.slice
             (r * (length a / n))
             ((r + 1) * (length a / n) +
              (if r =? n - 1 then length a mod n else 0))
             a))
  /\
  (forall (A : Type) n (data : list (list A)) time_step j,
     1 <= n ->
     (time_step <= 0)%Z \/ ~ In j [0; 1; 2; 7; 8; 9] ->
     concat
       (map (fun r =>
               nth j (Partition.data_parallel_partition n r data time_step)
                   [])
            (seq 0 n)) =
     nth j data []).
Proof.
  split; [| split; [| split; [| split; [| split; [| split]]]]].
  - intros n g Hn bounds. subst bounds. cbv beta.
    split; [intros r; apply partition_bounds_unfold |].
    split; [apply partition_bounds_first |].
    split; [intros r; apply partition_bounds_next |].
    split; [apply partition_bounds_last; exact Hn |].
    split; [intros r r'; apply partition_bounds_disjoint |].
    split.
    { intros i Hi.
      destruct (partition_bounds_cover Hn Hi) as (r & Hr & Hin).
      exists r. split; [exact Hr |]. split; [exact Hin |].
      intros r' Hr' Hin'.
      destruct (Nat.lt_trichotomy r' r) as [Hlt | [E | Hgt]];
        [| exact E |].
      - pose proof (partition_bounds_disjoint g Hlt Hr). lia.
      - pose proof (partition_bounds_disjoint g Hgt Hr'). lia. }
    split.
    { intros A l <-. split; [apply concat_partition; exact Hn |].
      intros r Hr. apply length_partition_slice; assumption. }
    split; [intros r; apply local_batch_size_unfold |].
    apply local_batch_sizes_sum; exact Hn.
  - intros n r inputs. apply create_inputs_var_closed.
  - intros L n r labels npoints data_size. apply create_labels_var_closed.
  - intros A n r a i rest npoints data_size Hn Hr.
    assert (Hn' : (1 <? n) = true) by (apply Nat.ltb_lt; exact Hn).
    rewrite length_partition_slice by lia.
    unfold Spec.input_var, Spec.label_var; simpl. rewrite Hn'.
    split; [reflexivity |]. intros -> ->.
    now destruct (i <? 3).
  - intros A n r data time_step. apply data_parallel_partition_single.
  - intros A n r data time_step j a Hn Hvisit Ha.
    rewrite (@data_parallel_partition_sliced A n r data time_step j
               Hn Hvisit).
    rewrite Ha. cbn [option_map]. unfold Partition.partition_slice.
    now rewrite partition_bounds_unfold.
  - intros A n data time_step j Hn Hvisit.
    destruct (Nat.eq_dec n 1) as [-> | Hne].
    + simpl. rewrite data_parallel_partition_single by lia.
      apply app_nil_r.
    + transitivity
        (concat (map (fun r => Partition.partition_slice n r (nth j data []))
                     (seq 0 n)));
        [| apply concat_partition; exact Hn].
      f_equal. apply map_ext. intros r.
      apply nth_data_parallel_partition; [lia | exact Hvisit].
Qed.

Lemma data_parallel_partition_assigns_every_row_once_witness :
  Partition.data_parallel_partition 3 0
    [[10; 11; 12; 13; 14; 15; 16; 17; 18; 19]; [1; 2]] 0 =
  [[10; 11; 12]; []] /\
  Partition.data_parallel_partition 3 1
    [[10; 11; 12; 13; 14; 15; 16; 17; 18; 19]; [1; 2]] 0 =
  [[13; 14; 15]; []] /\
  Partition.data_parallel_partition 3 2
    [[10; 11; 12; 13; 14; 15; 16; 17; 18; 19]; [1; 2]] 0 =
  [[16; 17; 18; 19]; [1; 2]] /\
  nth_error
    (Partition.data_parallel_partition 3 2
       [[10; 11; 12; 13; 14; 15; 16; 17; 18; 19]; [1; 2]] 0) 0 =
  Some (Partition.slice (2 * (10 / 3))
          ((2 + 1) * (10 / 3) + (if 2 =? 3 - 1 then 10 mod 3 else 0))
          [10; 11; 12; 13; 14; 15; 16; 17; 18; 19]) /\
  concat
    (map (fun r =>
            nth 0 (Partition.data_parallel_partition 3 r
                     [[10; 11; 12; 13; 14; 15; 16; 17; 18; 19]; [1; 2]] 0)
                [])
         (seq 0 3)) =
  [10; 11; 12; 13; 14; 15; 16; 17; 18; 19] /\
  concat (map (fun r => Partition.partition_slice 3 r
                          [10; 11; 12; 13; 14; 15; 16; 17; 18; 19])
              (seq 0 3)) =
  [10; 11; 12; 13; 14; 15; 16; 17; 18; 19] /\
  Partition.data_parallel_partition 1 0 [[1; 2; 3]; [4; 5]] 0 =
  [[1; 2; 3]; [4; 5]].
Proof.
  pose proof data_parallel_partition_assigns_every_row_once
    as (Hranges & _ & _ & _ & Hsingle & Hsliced & Hwhole).
  assert (H3 : 1 <= 3) by lia.
  destruct (Hranges 3 10 H3) as (_ & _ & _ & _ & _ & _ & Hslices & _).
  split; [reflexivity |]. split; [reflexivity |]. split; [reflexivity |].
  split; [| split; [| split]].
  - apply (Hsliced nat 3 2
             [[10; 11; 12; 13; 14; 15; 16; 17; 18; 19]; [1; 2]] 0%Z 0
             [10; 11; 12; 13; 14; 15; 16; 17; 18; 19]);
      [lia | left; lia | reflexivity].
  - apply (Hwhole nat 3
             [[10; 11; 12; 13; 14; 15; 16; 17; 18; 19]; [1; 2]] 0%Z 0);
      [lia | left; lia].
  - apply (Hslices nat [10; 11; 12; 13; 14; 15; 16; 17; 18; 19]).
    reflexivity.
  - apply Hsingle. lia.
Defined.

(** C10. For [time_step > 0], [data_parallel_partition] returns a list of
    the same length in which the entries at the indices 0, 1, 2, 7, 8 and 9
    are the entries of [data], and every other entry is a contiguous slice
    of the entry of [data] at its index: the slice of the rank when there
    are several ranks, the entry itself otherwise. *)
Theorem data_parallel_partition_keeps_previous_outputs :
  forall (A : Type) n r (data : list (list A)) time_step,
    (0 < time_step)%Z ->
    let data' := Partition.data_parallel_partition n r data time_step in
    length data' = length data /\
    forall i a, nth_error data i = Some a ->
      (In i [0; 1; 2; 7; 8; 9] -> nth_error data' i = Some a) /\
      (~ In i [0; 1; 2; 7; 8; 9] ->
       nth_error data' i =
       Some (if n <=? 1 then a else Partition.partition_slice n r a) /\
       exists start end_,
         nth_error data' i = Some (Partition.slice start end_ a)).
Proof.
  intros A n r data time_step Hts data'. subst data'.
  split; [apply data_parallel_partition_length |].
  intros i a Ha.
  apply Z.ltb_lt in Hts.
  assert (Hmem : In i [0; 1; 2; 7; 8; 9] <->
                 existsb (Nat.eqb i) [0; 1; 2; 7; 8; 9] = true).
  { rewrite existsb_exists. split.
    - intros Hin. exists i. split; [exact Hin | apply Nat.eqb_refl].
    - intros (j & Hin & E). apply Nat.eqb_eq in E. now subst j. }
  destruct (Nat.leb_spec n 1) as [Hn | Hn].
  - rewrite data_parallel_partition_single by exact Hn.
    split; [intros _; exact Ha |]. intros _. split; [exact Ha |].
    exists 0, (length a). rewrite Ha. f_equal. unfold Partition.slice.
    rewrite Nat.sub_0_r. simpl. symmetry. apply firstn_all.
  - rewrite data_parallel_partition_nth_error by exact Hn.
    rewrite Hts, Ha. cbn [andb option_map].
    split.
    + intros Hin. apply Hmem in Hin. now rewrite Hin.
    + intros Hout.
      destruct (existsb (Nat.eqb i) [0; 1; 2; 7; 8; 9]) eqn:E.
      * exfalso. apply Hout, Hmem. reflexivity.
      * split; [reflexivity |].
        unfold Partition.partition_slice.
        destruct (Partition.partition_bounds n r (length a)) as [s e].
        now exists s, e.
Qed.

Lemma data_parallel_partition_keeps_previous_outputs_witness :
  Partition.data_parallel_partition 2 1
    [[1; 2; 3]; [4; 5]; [6]; [7; 8; 9; 10; 11]] 1 =
  [[1; 2; 3]; [4; 5]; [6]; [9; 10; 11]] /\
  length (Partition.data_parallel_partition 2 1
            [[1; 2; 3]; [4; 5]; [6]; [7; 8; 9; 10; 11]] 1) = 4.
Proof.
  split; [reflexivity |].
  apply (@data_parallel_partition_keeps_previous_outputs nat 2 1
           [[1; 2; 3]; [4; 5]; [6]; [7; 8; 9; 10; 11]] 1%Z).
  reflexivity.
Defined.

(** ** Norms *)

Section NormFacts.

Import Tensor.
Local Open Scope R_scope.

Lemma sum_app (x y : list R) : sum (x ++ y) = sum x + sum y.
Proof.
  unfold sum. induction x as [| e x IH]; simpl; [lra | rewrite IH; lra].
Qed.

Lemma sum_squares_nonneg (x : list R) : 0 <= sum_squares x.
Proof.
  unfold sum_squares, sum. induction x as [| e x IH]; simpl.
  - lra.
  - pose proof (Rle_0_sqr e) as He. unfold Rsqr in He. lra.
Qed.

Lemma sum_squares_scale (k : R) (x : list R) :
  sum_squares (map (fun e => e * k) x) = k * k * sum_squares x.
Proof.
  unfold sum_squares, sum. induction x as [| e x IH]; simpl.
  - lra.
  - rewrite IH. ring.
Qed.

Lemma sum_squares_zero (x : list R) :
  Forall (fun e => e = 0) x -> sum_squares x = 0.
Proof.
  unfold sum_squares, sum. induction 1 as [| e x He _ IH]; simpl.
  - reflexivity.
  - rewrite IH, He. ring.
Qed.

Lemma norm_square (x : list R) : norm x * norm x = sum_squares x.
Proof. unfold norm. apply sqrt_sqrt, sum_squares_nonneg. Qed.

Lemma l2_norm_square_none (x : list R) :
  l2_norm_square x None = sum_squares x.
Proof. unfold l2_norm_square. apply norm_square. Qed.

Lemma l2_norm_square_some (x : list R) (scale : R) :
  scale <> 0 -> l2_norm_square x (Some scale) = sum_squares x.
Proof.
  intros Hs. unfold l2_norm_square.
  set (m := norm (map (fun e => e * scale) x)).
  assert (Hm : m * m = scale * scale * sum_squares x).
  { unfold m. rewrite norm_square. apply sum_squares_scale. }
  replace (m / scale * (m / scale)) with (m * m / (scale * scale))
    by (field; exact Hs).
  rewrite Hm. field. exact Hs.
Qed.

Lemma l2_norm_square_nonneg (x : list R) (scale : option R) :
  0 <= l2_norm_square x scale.
Proof.
  unfold l2_norm_square.
  match goal with |- 0 <= ?m * ?m => pose proof (Rle_0_sqr m) as H end.
  exact H.
Qed.

End NormFacts.

(** C3. Without a scale, [l2_norm_square x] is the sum of the squares of
    the elements of [x]; with a scale that is not zero it is the same
    number, in exact arithmetic. *)
Theorem l2_norm_square_sum_of_squares :
  forall x : list R,
    Tensor.l2_norm_square x None = Tensor.sum (map (fun e => e * e)%R x) /\
    forall scale : R, scale <> 0%R ->
      Tensor.l2_norm_square x (Some scale) = Tensor.l2_norm_square x None.
Proof.
  intros x. split.
  - apply l2_norm_square_none.
  - intros scale Hs.
    now rewrite l2_norm_square_some, l2_norm_square_none.
Qed.

Lemma l2_norm_square_sum_of_squares_witness :
  Tensor.l2_norm_square [3; 4]%R (Some 10000%R) =
  Tensor.l2_norm_square [3; 4]%R None.
Proof.
  apply (proj2 (l2_norm_square_sum_of_squares [3; 4]%R) 10000%R).
  lra.
Defined.

(** ** The boundary-condition loss *)

Section BcLossFacts.

Import Tensor Loss.
Local Open Scope R_scope.

Variable getitem_none : list row4 -> tensor.

(** A loop that adds a term at every step returns the sum of the terms. *)
Lemma for_in_sum (A : Type) (xs : list A) (body : A -> R -> result R)
  (term : A -> R) :
  (forall x acc, In x xs -> body x acc = Ok (acc + term x)) ->
  forall acc, for_in xs body acc = Ok (acc + sum (map term xs)).
Proof.
  unfold sum. induction xs as [| x xs IH]; intros Hbody acc; simpl.
  - f_equal. lra.
  - rewrite Hbody by (left; reflexivity). simpl.
    rewrite IH by (intros; apply Hbody; right; assumption).
    f_equal. lra.
Qed.

Lemma in_enumerate (A : Type) (xs : list A) (i : nat) (a : A) :
  In (i, a) (enumerate xs) -> nth_error xs i = Some a.
Proof.
  unfold enumerate.
  assert (H : forall s, In (i, a) (combine (seq s (length xs)) xs) ->
                        (s <= i)%nat /\ nth_error xs (i - s) = Some a).
  { induction xs as [| x xs IH]; intros s; simpl; [tauto |].
    intros [E | Hin].
    - injection E as <- <-. rewrite Nat.sub_diag. split; [lia | reflexivity].
    - apply IH in Hin as [Hle Hnth]. split; [lia |].
      replace (i - s)%nat with (S (i - S s)) by lia. exact Hnth. }
  intros Hin. apply H in Hin as [_ Hnth].
  now rewrite Nat.sub_0_r in Hnth.
Qed.

Lemma map_combine_nth (A B : Type) (f : A -> B -> R) (da : A) (db : B)
  (xs : list A) (ys : list B) :
  (length xs <= length ys)%nat ->
  map (fun '(x, y) => f x y) (combine xs ys) =
  map (fun j => f (nth j xs da) (nth j ys db)) (seq 0 (length xs)).
Proof.
  revert ys; induction xs as [| x xs IH]; intros ys Hlen; simpl.
  - reflexivity.
  - destruct ys as [| y ys]; simpl in Hlen; [lia |]. simpl.
    f_equal. rewrite IH by lia. rewrite <- seq_shift, map_map. reflexivity.
Qed.

Lemma name2index_known (nm : string) :
  In nm Spec.known_names ->
  dict_get name2index nm = Some (Spec.channel nm) /\
  (Spec.channel nm <? 4)%nat = true.
Proof.
  unfold Spec.known_names. simpl.
  intros [<- | [<- | [<- | [<- | []]]]]; split; reflexivity.
Qed.


Lemma minus_operand_deviation (out_el : list row4) (k : nat) (b : operand) :
  Spec.rhs_shape out_el b ->
  minus_operand (Ok (col4 out_el k)) b =
  Ok (Spec.deviation (col4 out_el k) b).
Proof.
  destruct b as [r | v]; simpl; intros Hshape.
  - reflexivity.
  - unfold broadcast, col4. rewrite length_map, Hshape, Nat.eqb_refl.
    reflexivity.
Qed.

Lemma sum_squares_weight (w : R) (x : list R) :
  0 <= w -> sum_squares (map (fun e => e * sqrt w) x) = w * sum_squares x.
Proof.
  intros Hw. rewrite sum_squares_scale, sqrt_sqrt by exact Hw. reflexivity.
Qed.

(** The term of a sub-condition on a known channel. *)
Lemma bc_contribution_known (out_el : list row4) (cond : bc_cond)
  (label : bc_label) :
  In (name cond) Spec.known_names ->
  0 <= weight label ->
  Spec.rhs_shape out_el (rhs label) ->
  bc_contribution getitem_none out_el (dict_get name2index (name cond))
    (rhs label) (weight label) =
  Ok (Spec.bc_term out_el cond label).
Proof.
  intros Hname Hw Hshape.
  destruct (name2index_known Hname) as [Hidx Hlt].
  unfold bc_contribution, getitem_col. rewrite Hidx, Hlt.
  rewrite minus_operand_deviation by exact Hshape. simpl.
  rewrite l2_norm_square_some by lra.
  rewrite sum_squares_weight by exact Hw. reflexivity.
Qed.

(** One boundary: the loop over its sub-conditions adds their terms. *)
Lemma bc_boundary_closed (labels_attr_bc : dict (list bc_label))
  (outputs_var : list (list row4)) (pde_disc_bc : dict (list bc_cond))
  (i : nat) (name_b : string) (out_el : list row4) (conds : list bc_cond)
  (labels : list bc_label) (acc : R) :
  nth_error outputs_var (i + 1) = Some out_el ->
  dict_find pde_disc_bc name_b = Some conds ->
  dict_find labels_attr_bc name_b = Some labels ->
  (length conds <= length labels)%nat ->
  Forall (fun cond => In (name cond) Spec.known_names) conds ->
  Forall (fun label => 0 <= weight label /\
                       Spec.rhs_shape out_el (rhs label)) labels ->
  (out_el <- list_get outputs_var (i + 1) ;;
   conds <- dict_getitem pde_disc_bc name_b ;;
   for_in (range (length conds))
     (fun j bc_loss =>
        labels <- dict_getitem labels_attr_bc name_b ;;
        label <- list_get labels j ;;
        cond <- list_get conds j ;;
        term <- bc_contribution getitem_none out_el
                  (dict_get name2index (name cond)) (rhs label)
                  (weight label) ;;
        Ok (bc_loss + term))
     acc) =
  Ok (acc +
      sum (map
             (fun '(cond, label) =>
                Spec.bc_term (nth (i + 1) outputs_var []) cond label)
             (combine (Spec.lookup pde_disc_bc name_b)
                      (Spec.lookup labels_attr_bc name_b)))).
Proof.
  intros Hout Hpde Hlab Hlen Hc Hl.
  rewrite (list_get_nth_error _ _ Hout). cbn [bind].
  unfold dict_getitem, Spec.lookup. rewrite Hpde, Hlab. cbn [bind].
  rewrite (nth_error_nth _ _ [] Hout).
  rewrite map_combine_nth
    with (da := mk_bc_cond "") (db := mk_bc_label (Scalar 0) 0)
    by exact Hlen.
  apply for_in_sum. intros j acc' Hj. apply in_seq in Hj.
  assert (Hcj : nth_error conds j = Some (nth j conds (mk_bc_cond "")))
    by (apply nth_error_nth'; lia).
  assert (Hlj : nth_error labels j =
                Some (nth j labels (mk_bc_label (Scalar 0) 0)))
    by (apply nth_error_nth'; lia).
  rewrite (list_get_nth_error _ _ Hlj), (list_get_nth_error _ _ Hcj).
  cbn [bind].
  rewrite Forall_forall in Hc, Hl.
  apply nth_error_In in Hcj, Hlj.
  destruct (Hl _ Hlj) as [Hw Hshape].
  rewrite bc_contribution_known by auto. reflexivity.
Qed.

Lemma compute_bc_loss_closed (I : Type) (inputs_attr_bc : dict I)
  (labels_attr_bc : dict (list bc_label)) (outputs_var : list (list row4))
  (pde_disc_bc : dict (list bc_cond)) :
  Spec.bc_well_formed (dict_keys inputs_attr_bc) labels_attr_bc outputs_var
    pde_disc_bc ->
  compute_bc_loss getitem_none inputs_attr_bc labels_attr_bc outputs_var
    pde_disc_bc =
  Ok (Spec.bc_loss (dict_keys inputs_attr_bc) labels_attr_bc outputs_var
        pde_disc_bc).
Proof.
  intros Hwf. unfold compute_bc_loss, Spec.bc_loss.
  rewrite for_in_sum with
    (term := fun '(i, name_b) =>
       sum (map
              (fun '(cond, label) =>
                 Spec.bc_term (nth (i + 1) outputs_var []) cond label)
              (combine (Spec.lookup pde_disc_bc name_b)
                       (Spec.lookup labels_attr_bc name_b)))).
  { f_equal. lra. }
  intros [i name_b] acc Hin. apply in_enumerate in Hin.
  destruct (Hwf i name_b Hin)
    as (out_el & conds & labels & Hout & Hpde & Hlab & Hlen & Hc & Hl).
  cbv beta iota zeta.
  now apply bc_boundary_closed
    with (out_el := out_el) (conds := conds) (labels := labels).
Qed.

End BcLossFacts.

(** C2. On a consistent boundary configuration [compute_bc_loss] returns
    one number: the sum, over the boundaries (the i-th one read from
    [outputs_var[i+1]]) and over the sub-conditions of each, of
    [wgt * ||out[:, index] - rhs||_2^2], where [index] is the column that
    {u:0, v:1, w:2, p:3} gives to the name of the sub-condition; the scale
    10000 of [l2_norm_square] does not change the value. *)
Theorem compute_bc_loss_weighted_deviations :
  forall (getitem_none : list Tensor.row4 -> Tensor.tensor) (I : Type)
    (inputs_attr_bc : Tensor.dict I)
    (labels_attr_bc : Tensor.dict (list Loss.bc_label))
    (outputs_var : list (list Tensor.row4))
    (pde_disc_bc : Tensor.dict (list Loss.bc_cond)),
    Spec.bc_well_formed (Tensor.dict_keys inputs_attr_bc) labels_attr_bc
      outputs_var pde_disc_bc ->
    Loss.compute_bc_loss getitem_none inputs_attr_bc labels_attr_bc
      outputs_var pde_disc_bc =
    Ok (Spec.bc_loss (Tensor.dict_keys inputs_attr_bc) labels_attr_bc
          outputs_var pde_disc_bc).
Proof.
  intros getitem_none I inputs_attr_bc labels_attr_bc outputs_var
    pde_disc_bc Hwf.
  unfold Loss.compute_bc_loss, Spec.bc_loss.
  rewrite for_in_sum with
    (term := fun '(i, name_b) =>
       Tensor.sum
         (map
            (fun '(cond, label) =>
               Spec.bc_term (nth (i + 1) outputs_var []) cond label)
            (combine (Spec.lookup pde_disc_bc name_b)
                     (Spec.lookup labels_attr_bc name_b)))).
  - f_equal. lra.
  - intros [i name_b] acc Hin. apply in_enumerate in Hin.
    destruct (Hwf i name_b Hin)
      as (out_el & conds & labels & Hout & Hpde & Hlab & Hlen & Hc & Hl).
    cbv beta iota zeta.
    now apply bc_boundary_closed
      with (out_el := out_el) (conds := conds) (labels := labels).
Qed.

Lemma examples_well_formed :
  Spec.bc_well_formed (Tensor.dict_keys Examples.inputs_attr_bc)
    Examples.labels_attr_bc Examples.outputs_var Examples.pde_disc_bc.
Proof.
  intros i name_b Hi.
  destruct i as [| [| i]]; simpl in Hi.
  - injection Hi as <-.
    eexists _, _, _. repeat split; try reflexivity.
    + repeat (apply Forall_cons || apply Forall_nil); simpl; auto 10.
    + repeat (apply Forall_cons || apply Forall_nil); simpl;
        (split; [lra | auto]).
  - injection Hi as <-.
    eexists _, _, _. repeat split; try reflexivity.
    + repeat (apply Forall_cons || apply Forall_nil); simpl; auto 10.
    + repeat (apply Forall_cons || apply Forall_nil); simpl;
        (split; [lra | auto]).
  - destruct i; discriminate Hi.
Qed.

Lemma compute_bc_loss_weighted_deviations_witness :
  Loss.compute_bc_loss Examples.reject_none Examples.inputs_attr_bc
    Examples.labels_attr_bc Examples.outputs_var Examples.pde_disc_bc =
  Ok (Spec.bc_loss (Tensor.dict_keys Examples.inputs_attr_bc)
        Examples.labels_attr_bc Examples.outputs_var Examples.pde_disc_bc)
  /\ Spec.bc_loss (Tensor.dict_keys Examples.inputs_attr_bc)
       Examples.labels_attr_bc Examples.outputs_var Examples.pde_disc_bc
     = 6%R.
Proof.
  split.
  - apply (@compute_bc_loss_weighted_deviations Examples.reject_none unit
             Examples.inputs_attr_bc Examples.labels_attr_bc
             Examples.outputs_var Examples.pde_disc_bc).
    exact examples_well_formed.
  - unfold Spec.bc_loss, Spec.bc_term, Tensor.sum_squares, Tensor.sum.
    simpl. lra.
Defined.

(** ** Weights and errors of the boundary-condition loss *)

Section BcErrors.

Import Tensor Loss.
Local Open Scope R_scope.

Variable getitem_none : list row4 -> tensor.

Lemma bc_contribution_value (out_el : list row4) (index : option nat)
  (rhs_b : operand) (wgt_b c : R) :
  0 <= wgt_b ->
  bc_contribution getitem_none out_el index rhs_b wgt_b = Ok c ->
  exists d,
    minus_operand (getitem_col getitem_none out_el index) rhs_b = Ok d /\
    c = wgt_b * sum_squares d.
Proof.
  intros Hw. unfold bc_contribution.
  destruct (minus_operand (getitem_col getitem_none out_el index) rhs_b)
    as [d | e]; simpl; intros H; [| discriminate H].
  injection H as <-. exists d. split; [reflexivity |].
  rewrite l2_norm_square_some by lra.
  apply sum_squares_weight; exact Hw.
Qed.







(** A sub-condition with an unknown name, the first one of the first
    boundary: the loss is the engine's failure on the index [None]. *)
Lemma compute_bc_loss_unknown_first (I : Type) (key : string) (v : I)
  (rest : dict I) (labels_attr_bc : dict (list bc_label))
  (outputs_var : list (list row4)) (pde_disc_bc : dict (list bc_cond))
  (out_el : list row4) (cond : bc_cond) (conds : list bc_cond)
  (label : bc_label) (labels : list bc_label) (e : exn) :
  nth_error outputs_var 1 = Some out_el ->
  dict_find pde_disc_bc key = Some (cond :: conds) ->
  dict_find labels_attr_bc key = Some (label :: labels) ->
  dict_get name2index (name cond) = None ->
  getitem_none out_el = Err e ->
  compute_bc_loss getitem_none ((key, v) :: rest) labels_attr_bc outputs_var
    pde_disc_bc = Err e.
Proof.
  intros Hout Hpde Hlab Hidx Hnone.
  unfold compute_bc_loss, enumerate, dict_keys.
  cbn [map fst length seq combine for_in Nat.add].
  rewrite (list_get_nth_error _ _ Hout). cbn [bind].
  unfold dict_getitem. rewrite Hpde. cbn [bind].
  unfold range. cbn [length seq for_in].
  rewrite Hlab. cbn [bind list_get nth_error].
  unfold bc_contribution, getitem_col. rewrite Hidx, Hnone.
  destruct (rhs label); reflexivity.
Qed.

End BcErrors.






Section BcRuns.

Import Tensor Loss.
Local Open Scope R_scope.

Variable getitem_none : list row4 -> tensor.





End BcRuns.






(** ** The equation loss *)

Section EqLossFacts.

Import Tensor Loss.
Local Open Scope R_scope.

Lemma length_tabulate (n : nat) (f : nat -> R) :
  length (Spec.tabulate n f) = n.
Proof. unfold Spec.tabulate. now rewrite length_map, length_seq. Qed.

Lemma map_nth_seq (v : list R) (s : nat) :
  map (fun i => nth (i - s) v 0) (seq s (length v)) = v.
Proof.
  revert s; induction v as [| x v IH]; intros s; simpl.
  - reflexivity.
  - rewrite Nat.sub_diag. f_equal.
    rewrite <- (IH (S s)) at 2.
    apply map_ext_in. intros i Hi. apply in_seq in Hi.
    replace (i - s)%nat with (S (i - S s)) by lia. reflexivity.
Qed.

Lemma tabulate_nth (n : nat) (v : list R) :
  length v = n -> v = Spec.tabulate n (fun i => nth i v 0).
Proof.
  intros <-. unfold Spec.tabulate.
  rewrite <- (map_nth_seq v 0) at 1.
  apply map_ext. intros i. now rewrite Nat.sub_0_r.
Qed.

Lemma map2_map (op : R -> R -> R) (f g : nat -> R) (l : list nat) :
  map2 op (map f l) (map g l) = map (fun i => op (f i) (g i)) l.
Proof. induction l as [| i l IH]; simpl; [reflexivity | now rewrite IH]. Qed.

Lemma elementwise_tabulate (op : R -> R -> R) (n : nat) (f g : nat -> R) :
  elementwise op (Ok (Spec.tabulate n f)) (Ok (Spec.tabulate n g)) =
  Ok (Spec.tabulate n (fun i => op (f i) (g i))).
Proof.
  unfold elementwise, broadcast. cbn [bind].
  rewrite !length_tabulate, Nat.eqb_refl. unfold Spec.tabulate.
  now rewrite map2_map.
Qed.

Lemma scalar_right_tabulate (op : R -> R -> R) (n : nat) (f : nat -> R)
  (k : R) :
  scalar_right op (Ok (Spec.tabulate n f)) k =
  Ok (Spec.tabulate n (fun i => op (f i) k)).
Proof.
  unfold scalar_right, Spec.tabulate. cbn [bind]. now rewrite map_map.
Qed.

Lemma scalar_left_tabulate (op : R -> R -> R) (n : nat) (f : nat -> R)
  (k : R) :
  scalar_left op k (Ok (Spec.tabulate n f)) =
  Ok (Spec.tabulate n (fun i => op k (f i))).
Proof.
  unfold scalar_left, Spec.tabulate. cbn [bind]. now rewrite map_map.
Qed.

(** The weighted residual of lines 173-176 against the residual itself. *)
Lemma sum_squares_residual (n : nat) (f g : nat -> R) (k : R) :
  0 <= k ->
  (forall i, f i = g i) ->
  sum_squares (Spec.tabulate n (fun i => (f i - 0) * sqrt k)) =
  k * sum_squares (Spec.tabulate n g).
Proof.
  intros Hk Hfg.
  rewrite <- (sum_squares_weight (Spec.tabulate n g) Hk).
  unfold Spec.tabulate. rewrite map_map. f_equal.
  apply map_ext. intros i. rewrite Hfg. ring.
Qed.

(** Every 1-D tensor of length [n] in the goal is written as a table, and
    the elementwise operations are pushed inside the tables. *)
Ltac tabulate_all n :=
  repeat match goal with
         | |- context [@Ok (list R) ?v] =>
             lazymatch v with
             | Spec.tabulate _ _ => fail
             | _ =>
                 rewrite (@tabulate_nth n v)
                   by (unfold col3, col4; rewrite ?length_map; assumption)
             end
         end;
  repeat (rewrite elementwise_tabulate || rewrite scalar_right_tabulate
          || rewrite scalar_left_tabulate).

Lemma compute_eq_loss_closed
  (gradients : Var (list R) -> Var (list row3)) (inputs : list row3)
  (outputs : Var (list row4)) (u_n v_n w_n : list R)
  (rest : list (list R)) :
  Spec.eq_shapes gradients inputs outputs u_n v_n w_n ->
  compute_eq_loss gradients inputs outputs (u_n :: v_n :: w_n :: rest) =
  Ok (Spec.eq_loss gradients inputs outputs u_n v_n w_n).
Proof.
  intros (Hout & Hjac & Hhes & Hu & Hv & Hw).
  set (loss := Spec.eq_loss gradients inputs outputs u_n v_n w_n).
  pose proof (Hjac 0%nat ltac:(lia)) as Hjac0.
  pose proof (Hjac 1%nat ltac:(lia)) as Hjac1.
  pose proof (Hjac 2%nat ltac:(lia)) as Hjac2.
  pose proof (Hjac 3%nat ltac:(lia)) as Hjac3.
  pose proof (Hhes 0%nat 0%nat ltac:(lia) ltac:(lia)) as Hhes0.
  pose proof (Hhes 0%nat 1%nat ltac:(lia) ltac:(lia)) as Hhes1.
  pose proof (Hhes 0%nat 2%nat ltac:(lia) ltac:(lia)) as Hhes2.
  pose proof (Hhes 1%nat 0%nat ltac:(lia) ltac:(lia)) as Hhes3.
  pose proof (Hhes 1%nat 1%nat ltac:(lia) ltac:(lia)) as Hhes4.
  pose proof (Hhes 1%nat 2%nat ltac:(lia) ltac:(lia)) as Hhes5.
  pose proof (Hhes 2%nat 0%nat ltac:(lia) ltac:(lia)) as Hhes6.
  pose proof (Hhes 2%nat 1%nat ltac:(lia) ltac:(lia)) as Hhes7.
  pose proof (Hhes 2%nat 2%nat ltac:(lia) ltac:(lia)) as Hhes8.
  clear Hjac Hhes.
  unfold compute_eq_loss. cbn [list_get nth_error bind].
  unfold Spec.d, Spec.field, at_inputs, column, column4 in *.
  tabulate_all (length inputs).
  cbn [bind]. f_equal. rewrite !l2_norm_square_none.
  assert (Hk : 0 <= 0.01) by lra.
  rewrite (sum_squares_residual (length inputs) _
             (Spec.continuity gradients inputs outputs) Hk).
  2: { intros i. reflexivity. }
  rewrite (sum_squares_residual (length inputs) _
             (Spec.momentum gradients inputs outputs 0 u_n) Hk).
  2: { intros i. unfold Spec.momentum, Spec.laplacian, Spec.value, Spec.d,
         Spec.field, Spec.nu, Spec.rho, Spec.dt, column, column4. lra. }
  rewrite (sum_squares_residual (length inputs) _
             (Spec.momentum gradients inputs outputs 1 v_n) Hk).
  2: { intros i. unfold Spec.momentum, Spec.laplacian, Spec.value, Spec.d,
         Spec.field, Spec.nu, Spec.rho, Spec.dt, column, column4. lra. }
  rewrite (sum_squares_residual (length inputs) _
             (Spec.momentum gradients inputs outputs 2 w_n) Hk).
  2: { intros i. unfold Spec.momentum, Spec.laplacian, Spec.value, Spec.d,
         Spec.field, Spec.nu, Spec.rho, Spec.dt, column, column4. lra. }
  subst loss. unfold Spec.eq_loss, Spec.residuals, sum. simpl. lra.
Qed.

End EqLossFacts.

(** ** Gradients and translations *)

Section CalculusFacts.

Import Tensor Loss Calculus.
Local Open Scope R_scope.

Lemma derivable_pt_lim_ext (f g : R -> R) (x l : R) :
  (forall t, f t = g t) ->
  derivable_pt_lim f x l -> derivable_pt_lim g x l.
Proof.
  intros Hfg Hf eps Heps. destruct (Hf eps Heps) as [delta Hdelta].
  exists delta. intros h Hh Hlt. rewrite <- !Hfg. now apply Hdelta.
Qed.

Lemma derivable_pt_lim_translate (g : R -> R) (a c l : R) :
  derivable_pt_lim g (a + c) l ->
  derivable_pt_lim (fun t => g (t + c)) a l.
Proof.
  intros Hg eps Heps. destruct (Hg eps Heps) as [delta Hdelta].
  exists delta. intros h Hh Hlt.
  replace (a + h + c) with (a + c + h) by ring. now apply Hdelta.
Qed.

Lemma derivable_pt_lim_affine (b s x : R) :
  derivable_pt_lim (fun t => b + s * (t - x)) x s.
Proof.
  intros eps Heps. exists (mkposreal 1 Rlt_0_1). intros h Hh _.
  replace ((b + s * (x + h - x) - (b + s * (x - x))) / h - s) with 0
    by (field; exact Hh).
  now rewrite Rabs_R0.
Qed.

Lemma row3_ext (r r' : row3) :
  (forall k, (k < 3)%nat -> proj3 k r = proj3 k r') -> r = r'.
Proof.
  intros H. destruct r as [a b c], r' as [a' b' c'].
  pose proof (H 0%nat ltac:(lia)) as H0.
  pose proof (H 1%nat ltac:(lia)) as H1.
  pose proof (H 2%nat ltac:(lia)) as H2.
  simpl in H0, H1, H2. now subst.
Qed.

Lemma rows_ext (X Y : list row3) :
  length X = length Y ->
  (forall i k, (i < length X)%nat -> (k < 3)%nat ->
     entry X i k = entry Y i k) ->
  X = Y.
Proof.
  intros Hlen H. apply nth_ext with (d := zero_row) (d' := zero_row).
  - exact Hlen.
  - intros i Hi. apply row3_ext. intros k Hk. now apply H.
Qed.

Lemma length_shift (c : row3) (X : list row3) :
  length (shift c X) = length X.
Proof. apply length_map. Qed.

Lemma shift_opp_shift (c : row3) (X : list row3) :
  shift (row_opp c) (shift c X) = X.
Proof.
  unfold shift. rewrite map_map. rewrite <- (map_id X) at 2.
  apply map_ext. intros [x y z]. unfold row_add, row_opp. simpl.
  f_equal; ring.
Qed.

Lemma length_set_entry (X : list row3) (i k : nat) (t : R) :
  length (set_entry X i k t) = length X.
Proof.
  unfold set_entry. destruct (nth_error X i); [apply length_list_set | easy].
Qed.

Lemma map_list_set (A B : Type) (f : A -> B) (xs : list A) (i : nat)
  (a : A) :
  map f (list_set xs i a) = list_set (map f xs) i (f a).
Proof.
  revert i; induction xs as [| x xs IH]; intros [| i]; simpl;
    try reflexivity.
  now rewrite IH.
Qed.

Lemma proj3_row_add (c r : row3) (k : nat) :
  proj3 k (row_add c r) = proj3 k r + proj3 k c.
Proof. destruct k as [| [| k]]; reflexivity. Qed.

Lemma row_add_row_set (c r : row3) (k : nat) (t : R) :
  row_add c (row_set k t r) = row_set k (t + proj3 k c) (row_add c r).
Proof. destruct k as [| [| k]]; reflexivity. Qed.

Lemma shift_set_entry (c : row3) (X : list row3) (i k : nat) (t : R) :
  shift c (set_entry X i k t) =
  set_entry (shift c X) i k (t + proj3 k c).
Proof.
  unfold set_entry, shift. rewrite nth_error_map.
  destruct (nth_error X i) as [r |]; simpl; [| reflexivity].
  now rewrite map_list_set, row_add_row_set.
Qed.

Lemma entry_shift (c : row3) (X : list row3) (i k : nat) :
  (i < length X)%nat ->
  entry (shift c X) i k = entry X i k + proj3 k c.
Proof.
  intros Hi. unfold entry, shift.
  rewrite (nth_indep _ zero_row (row_add c zero_row))
    by (now rewrite length_map).
  rewrite map_nth. apply proj3_row_add.
Qed.

(** The gradient of a translated target is the translated gradient. *)
Lemma is_gradient_translate (c : row3) (T T' : Var (list R))
  (GT GT' : Var (list row3)) :
  is_gradient T GT -> is_gradient T' GT' ->
  (forall X, T' X = T (shift c X)) ->
  forall X, GT' X = GT (shift c X).
Proof.
  intros HT HT' Heq X.
  destruct (HT' X) as [Hlen' Hd'].
  destruct (HT (shift c X)) as [Hlen Hd].
  rewrite length_shift in Hlen.
  apply rows_ext; [congruence |].
  intros i k Hi Hk. rewrite Hlen' in Hi.
  specialize (Hd' i k Hi Hk).
  specialize (Hd i k ltac:(now rewrite length_shift) Hk).
  unfold partial in Hd, Hd'. rewrite entry_shift in Hd by exact Hi.
  apply derivable_pt_lim_translate in Hd.
  eapply uniqueness_limite; [exact Hd' |].
  eapply derivable_pt_lim_ext; [| exact Hd].
  intros t. cbv beta. now rewrite Heq, shift_set_entry.
Qed.

Lemma nth_zero_rows (A : Type) (X : list A) (i : nat) :
  nth i (map (fun _ => zero_row) X) zero_row = zero_row.
Proof. revert i; induction X; intros [| i]; simpl; auto. Qed.

(** A target whose sum does not depend on the entries has the zero
    gradient. *)
Lemma is_gradient_insensitive (T : Var (list R)) (GT : Var (list row3)) :
  is_gradient T GT ->
  (forall X i k t, sum (T (set_entry X i k t)) = sum (T X)) ->
  forall X, GT X = map (fun _ => zero_row) X.
Proof.
  intros HT Hconst X. destruct (HT X) as [Hlen Hd].
  apply rows_ext; [now rewrite length_map |].
  intros i k Hi Hk. rewrite Hlen in Hi.
  specialize (Hd i k Hi Hk). unfold partial in Hd.
  assert (H0 : derivable_pt_lim
                 (fun t => sum (T (set_entry X i k t))) (entry X i k) 0).
  { apply derivable_pt_lim_ext with (f := fun _ => sum (T X)).
    - intros t. now rewrite Hconst.
    - apply derivable_pt_lim_const. }
  rewrite (uniqueness_limite _ _ _ _ Hd H0).
  unfold entry. rewrite nth_zero_rows. now destruct k as [| [| k]].
Qed.

End CalculusFacts.

(** ** The forward-difference engine *)

Section ForwardDifference.

Import Tensor Loss Calculus Examples.
Local Open Scope R_scope.

Lemma nth_map_seq (f : nat -> row3) (n i : nat) :
  (i < n)%nat -> nth i (map f (seq 0 n)) zero_row = f i.
Proof.
  intros Hi.
  rewrite (nth_indep _ zero_row (f 0%nat))
    by (rewrite length_map, length_seq; exact Hi).
  rewrite map_nth, seq_nth by exact Hi. reflexivity.
Qed.

Lemma length_fd_gradients (T : Var (list R)) (X : list row3) :
  length (fd_gradients T X) = length X.
Proof. unfold fd_gradients. now rewrite length_map, length_seq. Qed.

Lemma entry_fd_gradients (T : Var (list R)) (X : list row3) (i k : nat) :
  (i < length X)%nat -> (k < 3)%nat ->
  entry (fd_gradients T X) i k = forward_difference T X i k.
Proof.
  intros Hi Hk. unfold entry, fd_gradients.
  rewrite nth_map_seq by exact Hi.
  destruct k as [| [| [| k]]]; try reflexivity; lia.
Qed.

Lemma forward_difference_affine (T : Var (list R)) (a : nat -> R)
  (X : list row3) (i k : nat) :
  sum_affine T a -> (i < length X)%nat -> (k < 3)%nat ->
  forward_difference T X i k = a k.
Proof.
  intros HT Hi Hk. unfold forward_difference.
  rewrite (HT X i k _ Hi Hk). ring.
Qed.

(** On a target that is affine in every entry the forward difference is
    the gradient. *)
Lemma fd_is_gradient (T : Var (list R)) (a : nat -> R) :
  sum_affine T a -> is_gradient T (fd_gradients T).
Proof.
  intros HT X. split; [apply length_fd_gradients |].
  intros i k Hi Hk. unfold partial.
  rewrite entry_fd_gradients by assumption.
  rewrite (@forward_difference_affine T a X i k HT Hi Hk).
  apply derivable_pt_lim_ext
    with (f := fun t => sum (T X) + a k * (t - entry X i k)).
  - intros t. symmetry. now apply HT.
  - apply derivable_pt_lim_affine.
Qed.

Lemma fd_column_constant (T : Var (list R)) (a : nat -> R) (k : nat)
  (X : list row3) :
  sum_affine T a -> (k < 3)%nat ->
  column (fd_gradients T) k X = map (fun _ => a k) (seq 0 (length X)).
Proof.
  intros HT Hk. unfold column, col3, fd_gradients. rewrite map_map.
  apply map_ext_in. intros i Hi. apply in_seq in Hi.
  destruct k as [| [| [| k]]]; simpl;
    try (apply (@forward_difference_affine T a X _ _ HT); lia); lia.
Qed.

Lemma fd_column_sum_affine (T : Var (list R)) (a : nat -> R) (k : nat) :
  sum_affine T a -> (k < 3)%nat ->
  sum_affine (column (fd_gradients T) k) (fun _ => 0).
Proof.
  intros HT Hk X i k' t Hi Hk'.
  rewrite !(@fd_column_constant T a k _ HT Hk), length_set_entry. ring.
Qed.

Lemma sum_affine_shift (c : row3) (T : Var (list R)) (a : nat -> R) :
  sum_affine T a -> sum_affine (fun X => T (shift c X)) a.
Proof.
  intros HT X i k t Hi Hk.
  rewrite shift_set_entry, HT by (rewrite ?length_shift; assumption).
  rewrite entry_shift by exact Hi. ring.
Qed.

Lemma fd_engine_correct (outputs : Var (list row4)) (a : nat -> nat -> R) :
  (forall ch, (ch < 4)%nat -> sum_affine (column4 outputs ch) (a ch)) ->
  engine_correct fd_gradients outputs.
Proof.
  intros Ha. split.
  - intros ch Hch. apply fd_is_gradient with (a := a ch). now apply Ha.
  - intros ch k Hch Hk. apply fd_is_gradient with (a := fun _ => 0).
    apply fd_column_sum_affine with (a := a ch); [apply Ha; lia | exact Hk].
Qed.

Lemma sum_map_set_entry (g : row3 -> R) (X : list row3) (i k : nat) (t : R) :
  (i < length X)%nat ->
  sum (map g (set_entry X i k t)) =
  sum (map g X) +
  (g (row_set k t (nth i X zero_row)) - g (nth i X zero_row)).
Proof.
  unfold set_entry. revert i; induction X as [| r X IH]; intros i Hi.
  - simpl in Hi. lia.
  - destruct i as [| i]; simpl.
    + unfold sum. simpl. ring.
    + simpl in Hi. specialize (IH i ltac:(lia)).
      destruct (nth_error X i) as [r' |] eqn:Hr.
      * unfold sum in *. simpl. rewrite IH. ring.
      * apply nth_error_None in Hr. lia.
Qed.

Lemma affine_field_sum_affine (ch : nat) :
  (ch < 4)%nat -> sum_affine (column4 affine_field ch) (affine_slopes ch).
Proof.
  intros Hch X i k t Hi Hk.
  unfold column4, col4, affine_field. rewrite !map_map.
  rewrite sum_map_set_entry by exact Hi. unfold entry.
  destruct (nth i X zero_row) as [x y z].
  destruct ch as [| [| [| [| ch]]]]; try lia;
    destruct k as [| [| [| k]]]; try lia; simpl; ring.
Qed.

Lemma zero_output_sum_affine (ch : nat) :
  sum_affine (column4 zero_output ch) (fun _ => 0).
Proof. intros X i k t _ _. unfold column4, zero_output. ring. Qed.

End ForwardDifference.

(** ** The claims on the equation loss *)

Lemma fd_eq_shapes :
  Spec.eq_shapes Examples.fd_gradients Examples.two_points
    Examples.affine_field [0; 1]%R [2; 0]%R [1; 1]%R.
Proof.
  unfold Spec.eq_shapes. repeat split; intros;
    try apply length_fd_gradients; reflexivity.
Qed.

(** C1. On tensors of matching shapes [compute_eq_loss] returns 0.01 times
    the sum of the squared L2 norms (the sums of the squares of the
    elements) of four residuals: the continuity residual
    du/dx + dv/dy + dw/dz and the three momentum residuals
    (f - f_n)/dt + u df/dx + v df/dy + w df/dz - (nu/rho) Laplacian f
    + (1/rho) dp/dx_c, with nu = 0.01, rho = 1 and dt = 1.  This number is
    the sum of the squared L2 norms of the residuals times sqrt 0.01, and
    it is what [l2_norm_square] gives on them. *)
Theorem compute_eq_loss_sum_of_residuals :
  forall (gradients : Loss.Var (list R) -> Loss.Var (list Tensor.row3))
    (inputs : list Tensor.row3) (outputs : Loss.Var (list Tensor.row4))
    (u_n v_n w_n : list R) (rest : list (list R)),
    Spec.eq_shapes gradients inputs outputs u_n v_n w_n ->
    let residuals := Spec.residuals gradients inputs outputs u_n v_n w_n in
    Loss.compute_eq_loss gradients inputs outputs (u_n :: v_n :: w_n :: rest)
    = Ok (0.01 * Tensor.sum (map Tensor.sum_squares residuals))%R /\
    (0.01 * Tensor.sum (map Tensor.sum_squares residuals))%R
    = Tensor.sum
        (map (fun r => Tensor.sum_squares (map (fun e => e * sqrt 0.01)%R r))
             residuals) /\
    (0.01 * Tensor.sum (map Tensor.sum_squares residuals))%R
    = Tensor.sum
        (map (fun r =>
                Tensor.l2_norm_square (map (fun e => e * sqrt 0.01)%R r)
                  None)
             residuals).
Proof.
  intros gradients inputs outputs u_n v_n w_n rest Hshapes residuals.
  assert (Hk : (0 <= 0.01)%R) by lra.
  assert (E : (0.01 * Tensor.sum (map Tensor.sum_squares residuals))%R
              = Tensor.sum
                  (map (fun r =>
                          Tensor.sum_squares
                            (map (fun e => e * sqrt 0.01)%R r))
                       residuals)).
  { subst residuals. unfold Spec.residuals, Tensor.sum. simpl.
    rewrite !(sum_squares_weight _ Hk). lra. }
  split; [| split; [exact E |]].
  - rewrite (compute_eq_loss_closed rest Hshapes). reflexivity.
  - rewrite E. f_equal. apply map_ext. intros r. symmetry.
    apply l2_norm_square_none.
Qed.

Lemma two_points_residuals :
  Spec.residuals Examples.fd_gradients Examples.two_points
    Examples.affine_field [0; 1]%R [2; 0]%R [1; 1]%R =
  [[1; 1]; [5; 32]; [-2; 6]; [-1; -6]]%R.
Proof.
  unfold Spec.residuals, Spec.tabulate, Spec.continuity, Spec.momentum,
    Spec.laplacian, Spec.value, Spec.d, Spec.field, Spec.nu, Spec.rho,
    Spec.dt.
  assert (Hjac : forall ch k, ch < 4 -> k < 3 ->
            Loss.column
              (Examples.fd_gradients
                 (Loss.column4 Examples.affine_field ch)) k
              Examples.two_points
            = [Examples.affine_slopes ch k; Examples.affine_slopes ch k]).
  { intros ch k Hch Hk.
    exact (@fd_column_constant _ _ k Examples.two_points
             (affine_field_sum_affine Hch) Hk). }
  assert (Hhes : forall ch k k', ch < 4 -> k < 3 -> k' < 3 ->
            Loss.column
              (Examples.fd_gradients
                 (Loss.column
                    (Examples.fd_gradients
                       (Loss.column4 Examples.affine_field ch)) k)) k'
              Examples.two_points
            = [0; 0]%R).
  { intros ch k k' Hch Hk Hk'.
    exact (@fd_column_constant _ _ k' Examples.two_points
             (fd_column_sum_affine (affine_field_sum_affine Hch) Hk) Hk'). }
  rewrite !Hhes, !Hjac by lia.
  unfold Loss.column4, Examples.affine_field, Examples.two_points.
  simpl. repeat (f_equal; try lra).
Qed.

Lemma compute_eq_loss_sum_of_residuals_witness :
  Loss.compute_eq_loss Examples.fd_gradients Examples.two_points
    Examples.affine_field Examples.two_labels
  = Ok 11.28%R.
Proof.
  destruct (@compute_eq_loss_sum_of_residuals Examples.fd_gradients
              Examples.two_points Examples.affine_field
              [0; 1]%R [2; 0]%R [1; 1]%R [] fd_eq_shapes) as (Hloss & _).
  unfold Examples.two_labels. rewrite Hloss. f_equal.
  rewrite two_points_residuals.
  unfold Tensor.sum_squares, Tensor.sum. simpl. lra.
Defined.

Lemma fd_correct_on_affine_field :
  Calculus.engine_correct Examples.fd_gradients Examples.affine_field.
Proof.
  apply fd_engine_correct with (a := Examples.affine_slopes).
  exact affine_field_sum_affine.
Qed.

Lemma fd_correct_on_translated_field (c : Tensor.row3) :
  Calculus.engine_correct Examples.fd_gradients
    (Calculus.translated c Examples.affine_field).
Proof.
  apply fd_engine_correct with (a := Examples.affine_slopes).
  intros ch Hch.
  exact (@sum_affine_shift (Calculus.row_opp c) _ _
           (affine_field_sum_affine Hch)).
Qed.

(** C7. When the engine's gradients are the gradients, translating every
    point by a constant offset and taking the same field in the translated
    coordinates leaves the value of [compute_eq_loss] unchanged. *)
Theorem compute_eq_loss_translation_invariant :
  forall (gradients : Loss.Var (list R) -> Loss.Var (list Tensor.row3))
    (c : Tensor.row3) (outputs : Loss.Var (list Tensor.row4))
    (labels_var : list (list R)) (inputs : list Tensor.row3),
    Calculus.engine_correct gradients outputs ->
    Calculus.engine_correct gradients (Calculus.translated c outputs) ->
    Loss.compute_eq_loss gradients (Calculus.shift c inputs)
      (Calculus.translated c outputs) labels_var =
    Loss.compute_eq_loss gradients inputs outputs labels_var.
Proof.
  intros gradients c outputs labels_var X [H1 H2] [H1' H2'].
  unfold Calculus.engine_correct in *.
  assert (E1 : forall ch, (ch < 4)%nat -> forall X',
             gradients (Loss.column4 (Calculus.translated c outputs) ch) X'
             = gradients (Loss.column4 outputs ch)
                 (Calculus.shift (Calculus.row_opp c) X')).
  { intros ch Hch.
    apply (@is_gradient_translate (Calculus.row_opp c) _ _ _ _
             (H1 ch Hch) (H1' ch Hch)).
    reflexivity. }
  assert (E2 : forall ch k, (ch < 3)%nat -> (k < 3)%nat -> forall X',
             gradients
               (Loss.column
                  (gradients
                     (Loss.column4 (Calculus.translated c outputs) ch)) k)
               X'
             = gradients (Loss.column (gradients (Loss.column4 outputs ch)) k)
                 (Calculus.shift (Calculus.row_opp c) X')).
  { intros ch k Hch Hk.
    apply (@is_gradient_translate (Calculus.row_opp c) _ _ _ _
             (H2 ch k Hch Hk) (H2' ch k Hch Hk)).
    intros X'. unfold Loss.column. rewrite E1 by lia. reflexivity. }
  unfold Loss.compute_eq_loss, Loss.at_inputs. cbv zeta.
  unfold Loss.column in *.
  rewrite (E2 0%nat 0%nat), (E2 0%nat 1%nat), (E2 0%nat 2%nat),
    (E2 1%nat 0%nat), (E2 1%nat 1%nat), (E2 1%nat 2%nat),
    (E2 2%nat 0%nat), (E2 2%nat 1%nat), (E2 2%nat 2%nat) by lia.
  rewrite (E1 0%nat), (E1 1%nat), (E1 2%nat), (E1 3%nat) by lia.
  unfold Loss.column4, Calculus.translated.
  rewrite !shift_opp_shift. reflexivity.
Qed.

Lemma compute_eq_loss_translation_invariant_witness :
  Loss.compute_eq_loss Examples.fd_gradients
    (Calculus.shift Examples.offset Examples.two_points)
    (Calculus.translated Examples.offset Examples.affine_field)
    Examples.two_labels =
  Loss.compute_eq_loss Examples.fd_gradients Examples.two_points
    Examples.affine_field Examples.two_labels.
Proof.
  apply (@compute_eq_loss_translation_invariant Examples.fd_gradients
           Examples.offset Examples.affine_field Examples.two_labels
           Examples.two_points).
  - exact fd_correct_on_affine_field.
  - exact (fd_correct_on_translated_field Examples.offset).
Defined.

Section ZeroLoss.

Import Tensor Loss Calculus.
Local Open Scope R_scope.

Lemma sum_zero (l : list R) : Forall (fun e => e = 0) l -> sum l = 0.
Proof.
  unfold sum. induction 1 as [| e l He _ IH]; simpl; [reflexivity | lra].
Qed.

Lemma tabulate_zero (n : nat) (f : nat -> R) :
  (forall i, (i < n)%nat -> f i = 0) ->
  Forall (fun e => e = 0) (Spec.tabulate n f).
Proof.
  intros Hf. unfold Spec.tabulate. apply Forall_forall. intros e He.
  apply in_map_iff in He as (i & <- & Hi). apply in_seq in Hi.
  apply Hf. lia.
Qed.

(** Residuals that vanish on every row give the loss 0. *)
Lemma compute_eq_loss_zero
  (gradients : Var (list R) -> Var (list row3)) (inputs : list row3)
  (outputs : Var (list row4)) (u_n v_n w_n : list R)
  (rest : list (list R)) :
  Spec.eq_shapes gradients inputs outputs u_n v_n w_n ->
  (forall i, (i < length inputs)%nat ->
     Spec.continuity gradients inputs outputs i = 0 /\
     Spec.momentum gradients inputs outputs 0 u_n i = 0 /\
     Spec.momentum gradients inputs outputs 1 v_n i = 0 /\
     Spec.momentum gradients inputs outputs 2 w_n i = 0) ->
  compute_eq_loss gradients inputs outputs (u_n :: v_n :: w_n :: rest)
  = Ok 0.
Proof.
  intros Hshapes Hres. rewrite (compute_eq_loss_closed rest Hshapes).
  f_equal. unfold Spec.eq_loss, Spec.residuals. cbn [map].
  rewrite !sum_squares_zero by (apply tabulate_zero; intros i Hi;
                                apply (Hres i Hi)).
  unfold sum. simpl. lra.
Qed.

(** Outputs that meet every target give the loss 0. *)
Lemma compute_bc_loss_zero (getitem_none : list row4 -> tensor) (I : Type)
  (inputs_attr_bc : dict I) (labels_attr_bc : dict (list bc_label))
  (outputs_var : list (list row4)) (pde_disc_bc : dict (list bc_cond)) :
  Spec.bc_well_formed (dict_keys inputs_attr_bc) labels_attr_bc outputs_var
    pde_disc_bc ->
  Spec.bc_zero_mismatch (dict_keys inputs_attr_bc) labels_attr_bc
    outputs_var pde_disc_bc ->
  compute_bc_loss getitem_none inputs_attr_bc labels_attr_bc outputs_var
    pde_disc_bc = Ok 0.
Proof.
  intros Hwf Hzero. rewrite compute_bc_loss_closed by exact Hwf.
  f_equal. unfold Spec.bc_loss. apply sum_zero.
  apply Forall_forall. intros e He.
  apply in_map_iff in He as ([i name_b] & <- & Hin).
  apply in_enumerate in Hin. specialize (Hzero i name_b Hin).
  apply sum_zero. apply Forall_forall. intros e He.
  apply in_map_iff in He as ([cond label] & <- & Hin').
  rewrite Forall_forall in Hzero. specialize (Hzero _ Hin').
  unfold Spec.bc_term. rewrite sum_squares_zero by exact Hzero. ring.
Qed.

Lemma sum_zero_rows (A : Type) (X : list A) (k : nat) :
  sum (col3 (map (fun _ => zero_row) X) k) = 0.
Proof.
  apply sum_zero. unfold col3. rewrite map_map.
  apply Forall_forall. intros e He.
  apply in_map_iff in He as (x & <- & _). now destruct k as [| [| k]].
Qed.

(** A correct engine differentiates the tensor [[0, 0, 0, 0]], which does
    not depend on [inputs], to zero. *)
Lemma zero_output_gradients
  (gradients : Var (list R) -> Var (list row3)) :
  engine_correct gradients Examples.zero_output ->
  (forall ch X, (ch < 4)%nat ->
     gradients (column4 Examples.zero_output ch) X
     = map (fun _ => zero_row) X) /\
  (forall ch k X, (ch < 3)%nat -> (k < 3)%nat ->
     gradients (column (gradients (column4 Examples.zero_output ch)) k) X
     = map (fun _ => zero_row) X).
Proof.
  intros [H1 H2].
  assert (Hjac : forall ch X, (ch < 4)%nat ->
            gradients (column4 Examples.zero_output ch) X
            = map (fun _ => zero_row) X).
  { intros ch X Hch.
    apply (is_gradient_insensitive (H1 ch Hch)). reflexivity. }
  split; [exact Hjac |].
  intros ch k X Hch Hk.
  apply (is_gradient_insensitive (H2 ch k Hch Hk)).
  intros Y i k' t. unfold column.
  rewrite !Hjac by lia. now rewrite !sum_zero_rows.
Qed.

Lemma compute_eq_loss_origin
  (gradients : Var (list R) -> Var (list row3)) :
  engine_correct gradients Examples.zero_output ->
  compute_eq_loss gradients Examples.origin Examples.zero_output
    Examples.zero_labels = Ok 0.
Proof.
  intros Hcorrect.
  destruct (zero_output_gradients Hcorrect) as [Hjac Hhes].
  apply compute_eq_loss_zero.
  - unfold Spec.eq_shapes, Spec.field, Spec.d.
    repeat split; try reflexivity.
    + intros c Hc. now rewrite Hjac.
    + intros c k Hc Hk. now rewrite Hhes.
  - intros i Hi.
    unfold Spec.continuity, Spec.momentum, Spec.laplacian, Spec.value,
      Spec.d, Spec.field, Spec.nu, Spec.rho, Spec.dt.
    repeat match goal with
           | |- context [column ?t ?k Examples.origin] =>
               change (column t k Examples.origin)
                 with (col3 (t Examples.origin) k)
           end.
    rewrite !Hhes, !Hjac by lia.
    unfold Examples.origin in *. simpl in Hi.
    replace i with 0%nat by lia.
    unfold column4, Examples.zero_output. simpl. repeat split; lra.
Qed.

End ZeroLoss.

(** C5. When the four residuals vanish on every row, [compute_eq_loss]
    returns 0; when no boundary output deviates from its target,
    [compute_bc_loss] returns 0.  In particular, for the inputs [[0,0,0]],
    the output tensor [[0,0,0,0]] and the labels u_n = v_n = w_n = 0, a
    correct engine returns zero for every derivative and
    [compute_eq_loss] returns 0. *)
Theorem losses_vanish_on_exact_solutions :
  (forall (gradients : Loss.Var (list R) -> Loss.Var (list Tensor.row3))
     (inputs : list Tensor.row3) (outputs : Loss.Var (list Tensor.row4))
     (u_n v_n w_n : list R) (rest : list (list R)),
     Spec.eq_shapes gradients inputs outputs u_n v_n w_n ->
     (forall i, i < length inputs ->
        Spec.continuity gradients inputs outputs i = 0%R /\
        Spec.momentum gradients inputs outputs 0 u_n i = 0%R /\
        Spec.momentum gradients inputs outputs 1 v_n i = 0%R /\
        Spec.momentum gradients inputs outputs 2 w_n i = 0%R) ->
     Loss.compute_eq_loss gradients inputs outputs
       (u_n :: v_n :: w_n :: rest) = Ok 0%R)
  /\
  (forall (getitem_none : list Tensor.row4 -> Tensor.tensor) (I : Type)
     (inputs_attr_bc : Tensor.dict I)
     (labels_attr_bc : Tensor.dict (list Loss.bc_label))
     (outputs_var : list (list Tensor.row4))
     (pde_disc_bc : Tensor.dict (list Loss.bc_cond)),
     Spec.bc_well_formed (Tensor.dict_keys inputs_attr_bc) labels_attr_bc
       outputs_var pde_disc_bc ->
     Spec.bc_zero_mismatch (Tensor.dict_keys inputs_attr_bc) labels_attr_bc
       outputs_var pde_disc_bc ->
     Loss.compute_bc_loss getitem_none inputs_attr_bc labels_attr_bc
       outputs_var pde_disc_bc = Ok 0%R)
  /\
  (forall (gradients : Loss.Var (list R) -> Loss.Var (list Tensor.row3)),
     Calculus.engine_correct gradients Examples.zero_output ->
     (forall ch, ch < 4 ->
        gradients (Loss.column4 Examples.zero_output ch) Examples.origin
        = [Calculus.zero_row]) /\
     (forall ch k, ch < 3 -> k < 3 ->
        gradients
          (Loss.column (gradients (Loss.column4 Examples.zero_output ch)) k)
          Examples.origin
        = [Calculus.zero_row]) /\
     Loss.compute_eq_loss gradients Examples.origin Examples.zero_output
       Examples.zero_labels = Ok 0%R).
Proof.
  split; [| split].
  - intros. now apply compute_eq_loss_zero.
  - intros. now apply compute_bc_loss_zero.
  - intros gradients Hcorrect.
    destruct (zero_output_gradients Hcorrect) as [Hjac Hhes].
    split; [| split].
    + intros ch Hch. now rewrite Hjac.
    + intros ch k Hch Hk. now rewrite Hhes.
    + now apply compute_eq_loss_origin.
Qed.

Lemma fd_correct_on_zero_output :
  Calculus.engine_correct Examples.fd_gradients Examples.zero_output.
Proof.
  apply fd_engine_correct with (a := fun _ _ => 0%R).
  intros ch _. apply zero_output_sum_affine.
Qed.

Lemma matched_well_formed :
  Spec.bc_well_formed (Tensor.dict_keys Examples.wall_attr)
    Examples.matched_labels Examples.wall_outputs (Examples.wall_conds "u").
Proof.
  intros i name_b Hi. destruct i as [| i]; simpl in Hi.
  - injection Hi as <-.
    eexists _, _, _. repeat split; try reflexivity.
    + repeat (apply Forall_cons || apply Forall_nil); simpl; auto 10.
    + repeat (apply Forall_cons || apply Forall_nil); simpl;
        (split; [lra | auto]).
  - destruct i; discriminate Hi.
Qed.

Lemma matched_zero_mismatch :
  Spec.bc_zero_mismatch (Tensor.dict_keys Examples.wall_attr)
    Examples.matched_labels Examples.wall_outputs (Examples.wall_conds "u").
Proof.
  intros i name_b Hi. destruct i as [| i]; simpl in Hi.
  - injection Hi as <-. simpl.
    repeat (first [apply Forall_cons | apply Forall_nil]; simpl); lra.
  - destruct i; discriminate Hi.
Qed.

Lemma losses_vanish_on_exact_solutions_witness :
  Loss.compute_eq_loss Examples.fd_gradients Examples.origin
    Examples.zero_output Examples.zero_labels = Ok 0%R /\
  Loss.compute_bc_loss Examples.reject_none Examples.wall_attr
    Examples.matched_labels Examples.wall_outputs (Examples.wall_conds "u")
  = Ok 0%R.
Proof.
  destruct losses_vanish_on_exact_solutions as (_ & Hbc & Horigin).
  split.
  - apply (Horigin Examples.fd_gradients fd_correct_on_zero_output).
  - apply (Hbc Examples.reject_none unit Examples.wall_attr
             Examples.matched_labels Examples.wall_outputs
             (Examples.wall_conds "u")).
    + exact matched_well_formed.
    + exact matched_zero_mismatch.
Defined.

Section NonNegative.

Import Tensor Loss.
Local Open Scope R_scope.

Lemma bc_contribution_nonneg (getitem_none : list row4 -> tensor)
  (out_el : list row4) (index : option nat) (rhs_b : operand)
  (wgt_b c : R) :
  bc_contribution getitem_none out_el index rhs_b wgt_b = Ok c -> 0 <= c.
Proof.
  unfold bc_contribution. intros H.
  apply bind_ok_inv in H as (x & _ & H). injection H as <-.
  apply l2_norm_square_nonneg.
Qed.

Lemma compute_bc_loss_nonneg (getitem_none : list row4 -> tensor)
  (I : Type) (inputs_attr_bc : dict I)
  (labels_attr_bc : dict (list bc_label)) (outputs_var : list (list row4))
  (pde_disc_bc : dict (list bc_cond)) (v : R) :
  compute_bc_loss getitem_none inputs_attr_bc labels_attr_bc outputs_var
    pde_disc_bc = Ok v ->
  0 <= v.
Proof.
  unfold compute_bc_loss.
  apply for_in_invariant with (P := fun s => 0 <= s); [| lra].
  intros [i name_b] s s' _ Hs H. cbv beta iota in H.
  apply bind_ok_inv in H as (out_el & _ & H).
  apply bind_ok_inv in H as (conds & _ & H).
  revert H. apply for_in_invariant with (P := fun s => 0 <= s);
    [| exact Hs].
  intros j t t' _ Ht H. cbv beta in H.
  apply bind_ok_inv in H as (labels & _ & H).
  apply bind_ok_inv in H as (label & _ & H).
  apply bind_ok_inv in H as (cond & _ & H).
  apply bind_ok_inv in H as (term & Hterm & H).
  injection H as <-. apply bc_contribution_nonneg in Hterm. lra.
Qed.

Lemma compute_eq_loss_nonneg
  (gradients : Var (list R) -> Var (list row3)) (inputs : list row3)
  (outputs : Var (list row4)) (labels_var : list (list R)) (v : R) :
  compute_eq_loss gradients inputs outputs labels_var = Ok v -> 0 <= v.
Proof.
  unfold compute_eq_loss. cbv zeta. intros H.
  apply bind_ok_inv in H as (u_n & _ & H).
  apply bind_ok_inv in H as (v_n & _ & H).
  apply bind_ok_inv in H as (w_n & _ & H).
  apply bind_ok_inv in H as (r0 & _ & H).
  apply bind_ok_inv in H as (r1 & _ & H).
  apply bind_ok_inv in H as (r2 & _ & H).
  apply bind_ok_inv in H as (r3 & _ & H).
  injection H as <-.
  pose proof (l2_norm_square_nonneg r0 None).
  pose proof (l2_norm_square_nonneg r1 None).
  pose proof (l2_norm_square_nonneg r2 None).
  pose proof (l2_norm_square_nonneg r3 None).
  lra.
Qed.

End NonNegative.

(** C6. The values of the two losses are not negative: whatever
    [compute_eq_loss] returns, and whatever [compute_bc_loss] returns when
    no weight is negative, is at least 0; on tensors of matching shapes
    and on a consistent boundary configuration they do return a value. *)
Theorem losses_nonnegative :
  (forall (gradients : Loss.Var (list R) -> Loss.Var (list Tensor.row3))
     (inputs : list Tensor.row3) (outputs : Loss.Var (list Tensor.row4))
     (labels_var : list (list R)) (v : R),
     Loss.compute_eq_loss gradients inputs outputs labels_var = Ok v ->
     (0 <= v)%R)
  /\
  (forall (getitem_none : list Tensor.row4 -> Tensor.tensor) (I : Type)
     (inputs_attr_bc : Tensor.dict I)
     (labels_attr_bc : Tensor.dict (list Loss.bc_label))
     (outputs_var : list (list Tensor.row4))
     (pde_disc_bc : Tensor.dict (list Loss.bc_cond)) (v : R),
     Spec.weights_nonneg labels_attr_bc ->
     Loss.compute_bc_loss getitem_none inputs_attr_bc labels_attr_bc
       outputs_var pde_disc_bc = Ok v ->
     (0 <= v)%R)
  /\
  (forall (gradients : Loss.Var (list R) -> Loss.Var (list Tensor.row3))
     (inputs : list Tensor.row3) (outputs : Loss.Var (list Tensor.row4))
     (u_n v_n w_n : list R) (rest : list (list R)),
     Spec.eq_shapes gradients inputs outputs u_n v_n w_n ->
     exists v,
       Loss.compute_eq_loss gradients inputs outputs
         (u_n :: v_n :: w_n :: rest) = Ok v /\ (0 <= v)%R)
  /\
  (forall (getitem_none : list Tensor.row4 -> Tensor.tensor) (I : Type)
     (inputs_attr_bc : Tensor.dict I)
     (labels_attr_bc : Tensor.dict (list Loss.bc_label))
     (outputs_var : list (list Tensor.row4))
     (pde_disc_bc : Tensor.dict (list Loss.bc_cond)),
     Spec.bc_well_formed (Tensor.dict_keys inputs_attr_bc) labels_attr_bc
       outputs_var pde_disc_bc ->
     exists v,
       Loss.compute_bc_loss getitem_none inputs_attr_bc labels_attr_bc
         outputs_var pde_disc_bc = Ok v /\ (0 <= v)%R).
Proof.
  split; [| split; [| split]].
  - intros gradients inputs outputs labels_var v.
    apply compute_eq_loss_nonneg.
  - intros getitem_none I inputs_attr_bc labels_attr_bc outputs_var
      pde_disc_bc v _. apply compute_bc_loss_nonneg.
  - intros gradients inputs outputs u_n v_n w_n rest Hshapes.
    eexists. split; [apply (compute_eq_loss_closed rest Hshapes) |].
    eapply compute_eq_loss_nonneg.
    apply (compute_eq_loss_closed rest Hshapes).
  - intros getitem_none I inputs_attr_bc labels_attr_bc outputs_var
      pde_disc_bc Hwf.
    eexists. split; [apply compute_bc_loss_closed; exact Hwf |].
    eapply compute_bc_loss_nonneg.
    apply compute_bc_loss_closed with (getitem_none := getitem_none).
    exact Hwf.
Qed.

Lemma examples_weights_nonneg : Spec.weights_nonneg Examples.labels_attr_bc.
Proof.
  unfold Spec.weights_nonneg, Examples.labels_attr_bc.
  repeat (first [apply Forall_cons | apply Forall_nil]; simpl); lra.
Qed.

Lemma losses_nonnegative_witness :
  (exists v,
     Loss.compute_eq_loss Examples.fd_gradients Examples.two_points
       Examples.affine_field Examples.two_labels = Ok v /\ (0 <= v)%R) /\
  (0 <= Spec.bc_loss (Tensor.dict_keys Examples.inputs_attr_bc)
          Examples.labels_attr_bc Examples.outputs_var
          Examples.pde_disc_bc)%R.
Proof.
  destruct losses_nonnegative as (_ & Hbc & Heq & _).
  split.
  - apply (Heq Examples.fd_gradients Examples.two_points
             Examples.affine_field [0; 1]%R [2; 0]%R [1; 1]%R []).
    exact fd_eq_shapes.
  - apply (Hbc Examples.reject_none unit Examples.inputs_attr_bc
             Examples.labels_attr_bc Examples.outputs_var
             Examples.pde_disc_bc).
    + exact examples_weights_nonneg.
    + apply compute_bc_loss_closed. exact examples_well_formed.
Defined.

(** * Further properties *)

(** ** Partitioning *)

(** X1. With several ranks and [time_step <= 0] (the default is 0) no
    index is skipped: every entry of [data] is replaced by the slice of
    the rank. *)
Theorem data_parallel_partition_first_step :
  forall (A : Type) n r (data : list (list A)) time_step,
    1 < n -> (time_step <= 0)%Z ->
    Partition.data_parallel_partition n r data time_step =
    map (Partition.partition_slice n r) data.
Proof.
  intros A n r data time_step Hn Hts.
  apply nth_error_ext. intros j.
  rewrite data_parallel_partition_nth_error by exact Hn.
  replace (0 <? time_step)%Z with false
    by (symmetry; apply Z.ltb_ge; exact Hts).
  cbn [andb]. now rewrite nth_error_map.
Qed.

Lemma data_parallel_partition_first_step_witness :
  Partition.data_parallel_partition 2 0
    [[1; 2; 3]; [4; 5]; [6]; [7; 8; 9; 10; 11]] 0 =
  map (Partition.partition_slice 2 0)
    [[1; 2; 3]; [4; 5]; [6]; [7; 8; 9; 10; 11]].
Proof.
  apply (@data_parallel_partition_first_step nat 2 0
           [[1; 2; 3]; [4; 5]; [6]; [7; 8; 9; 10; 11]] 0%Z); lia.
Defined.

(** X2. At the first time step the ranks share every entry without loss:
    for every index, the entries that the ranks 0, ..., n - 1 receive, one
    after the other, are the entry of [data]. *)
Theorem data_parallel_partition_reassembles :
  forall (A : Type) n (data : list (list A)) time_step i,
    1 <= n -> (time_step <= 0)%Z ->
    concat
      (map (fun r =>
              nth i (Partition.data_parallel_partition n r data time_step) [])
           (seq 0 n)) =
    nth i data [].
Proof.
  intros A n data time_step i Hn Hts.
  destruct (Nat.eq_dec n 1) as [-> | Hne].
  - simpl. rewrite data_parallel_partition_single by lia.
    apply app_nil_r.
  - transitivity
      (concat (map (fun r => Partition.partition_slice n r (nth i data []))
                   (seq 0 n)));
      [| apply concat_partition; exact Hn].
    f_equal. apply map_ext. intros r.
    rewrite data_parallel_partition_first_step by lia.
    rewrite <- (partition_slice_nil A n r) at 1.
    apply map_nth.
Qed.

Lemma data_parallel_partition_reassembles_witness :
  concat
    (map (fun r =>
            nth 1 (Partition.data_parallel_partition 3 r
                     [[1; 2; 3]; [4; 5; 6; 7; 8]] 0) [])
         (seq 0 3)) =
  [4; 5; 6; 7; 8].
Proof.
  apply (@data_parallel_partition_reassembles nat 3
           [[1; 2; 3]; [4; 5; 6; 7; 8]] 0%Z 1); lia.
Defined.

(** X3. An array with fewer rows than there are ranks goes whole to the
    last rank; every other rank receives the empty array. *)
Theorem partition_slice_small_batch :
  forall (A : Type) n r (a : list A),
    length a < n -> r < n ->
    Partition.partition_slice n r a = if r =? n - 1 then a else [].
Proof.
  intros A n r a Hsmall Hr.
  unfold Partition.partition_slice. rewrite partition_bounds_unfold.
  rewrite (Nat.div_small _ _ Hsmall), (Nat.mod_small _ _ Hsmall).
  rewrite !Nat.mul_0_r. unfold Partition.slice. simpl.
  destruct (r =? n - 1).
  - rewrite Nat.sub_0_r. apply firstn_all.
  - reflexivity.
Qed.

Lemma partition_slice_small_batch_witness :
  Partition.partition_slice 4 3 [7; 8] = [7; 8] /\
  Partition.partition_slice 4 1 [7; 8] = [].
Proof.
  split.
  - apply (@partition_slice_small_batch nat 4 3 [7; 8]); simpl; lia.
  - apply (@partition_slice_small_batch nat 4 1 [7; 8]); simpl; lia.
Defined.

(** X4. The partition is balanced: every rank has at least [g div n] rows,
    only the last rank can have more, and fewer than [n] more; when [n]
    divides [g] all ranks have [g div n] rows. *)
Theorem local_batch_size_balanced :
  forall n r g,
    1 <= n -> r < n ->
    g / n <= Partition.local_batch_size n r g < g / n + n /\
    (r < n - 1 -> Partition.local_batch_size n r g = g / n) /\
    (g mod n = 0 -> Partition.local_batch_size n r g = g / n).
Proof.
  intros n r g Hn Hr. rewrite local_batch_size_unfold.
  pose proof (Nat.mod_upper_bound g n ltac:(lia)) as Hmod.
  destruct (Nat.eqb_spec r (n - 1)) as [E | NE]; repeat split; lia.
Qed.

Lemma local_batch_size_balanced_witness :
  10 / 4 <= Partition.local_batch_size 4 3 10 < 10 / 4 + 4.
Proof.
  apply (@local_batch_size_balanced 4 3 10); lia.
Defined.

(** ** The declared variables *)

Lemma str_inj (i j : nat) : str i = str j -> i = j.
Proof.
  unfold str. intros H.
  assert (Hnn : forall n, Nat.to_uint n <> Decimal.Nil).
  { intros n. rewrite <- (DecimalNat.Unsigned.of_to n) at 1.
    rewrite DecimalNat.Unsigned.to_of. apply DecimalFacts.unorm_nonnil. }
  apply (f_equal NilZero.uint_of_string) in H.
  rewrite !NilZero.usu in H by apply Hnn.
  injection H as H. now apply DecimalNat.Unsigned.to_uint_inj.
Qed.

Lemma prefixed_names_NoDup (prefix : string) (k m : nat) :
  NoDup (map (fun i => (prefix ++ str i)%string) (seq k m)).
Proof.
  apply Finite.Injective_map_NoDup; [| apply seq_NoDup].
  intros i j H. apply str_inj.
  induction prefix as [| c prefix IH]; simpl in H.
  - exact H.
  - injection H as H. now apply IH.
Qed.

Lemma create_inputs_var_names (n r : nat) (inputs : list (list nat))
  (m k : nat) (acc res : list Partition.static_data) :
  for_in (seq k m)
    (fun i inputs_var =>
       shape <- list_get inputs i ;;
       shape <-
         (if 1 <? n then
            gbsz <- list_get shape 0 ;;
            Ok (list_set shape 0 (Partition.local_batch_size n r gbsz))
          else Ok shape) ;;
       Ok (inputs_var ++
             [Partition.mk_static_data ("input" ++ str i)%string shape
                "float32" false]))
    acc = Ok res ->
  map Partition.var_name res =
  map Partition.var_name acc ++
  map (fun i => ("input" ++ str i)%string) (seq k m).
Proof.
  revert k acc; induction m as [| m IH]; intros k acc H.
  - simpl in H. injection H as <-. simpl. now rewrite app_nil_r.
  - cbn [seq for_in] in H.
    apply bind_ok_inv in H as (acc' & Hbody & H).
    apply bind_ok_inv in Hbody as (shape & _ & Hbody).
    apply bind_ok_inv in Hbody as (shape' & _ & Hbody).
    injection Hbody as <-.
    rewrite (IH _ _ H), map_app, <- app_assoc. reflexivity.
Qed.

(** X5. The variables that [create_inputs_var] and [create_labels_var]
    declare are as many as the arrays they are given, and their names,
    'input0', 'input1', ... and 'label0', 'label1', ..., are pairwise
    different. *)
Theorem declared_names_distinct :
  (forall n r (inputs : list (list nat)) vars,
     Partition.create_inputs_var n r inputs = Ok vars ->
     length vars = length inputs /\
     NoDup (map Partition.var_name vars)) /\
  (forall (L : Type) n r (labels : list L) npoints data_size,
     let vars :=
       Partition.create_labels_var n r labels npoints data_size in
     length vars = length labels /\
     NoDup (map Partition.var_name vars)).
Proof.
  split.
  - intros n r inputs vars H.
    apply create_inputs_var_names in H. cbn [map app] in H.
    split.
    + apply (f_equal (@length string)) in H.
      now rewrite !length_map, length_seq in H.
    + rewrite H. apply prefixed_names_NoDup.
  - intros L n r labels npoints data_size vars. subst vars.
    rewrite create_labels_var_closed. unfold range. split.
    + now rewrite length_map, length_seq.
    + rewrite map_map.
      apply (prefixed_names_NoDup "label" 0 (length labels)).
Qed.

Lemma declared_names_distinct_witness :
  NoDup
    (map Partition.var_name
       (map (fun '(i, shape) => Spec.input_var 2 1 i shape)
            (enumerate [[10; 3]; [7; 3]; [5]]))).
Proof.
  apply (proj1 declared_names_distinct 2 1 [[10; 3]; [7; 3]; [5]]).
  reflexivity.
Defined.

Lemma create_inputs_var_single_loop (n r : nat)
  (rest pre : list (list nat)) (acc : list Partition.static_data) :
  n <= 1 ->
  for_in (seq (length pre) (length rest))
    (fun i inputs_var =>
       shape <- list_get (pre ++ rest) i ;;
       shape <-
         (if 1 <? n then
            gbsz <- list_get shape 0 ;;
            Ok (list_set shape 0 (Partition.local_batch_size n r gbsz))
          else Ok shape) ;;
       Ok (inputs_var ++
             [Partition.mk_static_data ("input" ++ str i)%string shape
                "float32" false]))
    acc =
  Ok (acc ++
        map (fun '(i, shape) =>
               Partition.mk_static_data ("input" ++ str i)%string shape
                 "float32" false)
            (combine (seq (length pre) (length rest)) rest)).
Proof.
  intros Hn.
  assert (Hn' : (1 <? n) = false) by (apply Nat.ltb_ge; exact Hn).
  rewrite Hn'.
  revert pre acc; induction rest as [| shape rest IH]; intros pre acc.
  - simpl. now rewrite app_nil_r.
  - cbn [length seq for_in combine map].
    unfold list_get at 1.
    rewrite nth_error_app2, Nat.sub_diag by lia. cbn [nth_error bind].
    replace (pre ++ shape :: rest) with ((pre ++ [shape]) ++ rest)
      by (now rewrite <- app_assoc).
    replace (S (length pre)) with (length (pre ++ [shape]))
      by (rewrite length_app; simpl; lia).
    rewrite IH, <- app_assoc. reflexivity.
Qed.

Lemma create_inputs_var_scalar_loop (n r : nat)
  (rest pre : list (list nat)) (acc : list Partition.static_data) :
  1 < n -> In [] rest ->
  for_in (seq (length pre) (length rest))
    (fun i inputs_var =>
       shape <- list_get (pre ++ rest) i ;;
       shape <-
         (if 1 <? n then
            gbsz <- list_get shape 0 ;;
            Ok (list_set shape 0 (Partition.local_batch_size n r gbsz))
          else Ok shape) ;;
       Ok (inputs_var ++
             [Partition.mk_static_data ("input" ++ str i)%string shape
                "float32" false]))
    acc = Err IndexError.
Proof.
  intros Hn.
  assert (Hn' : (1 <? n) = true) by (apply Nat.ltb_lt; exact Hn).
  rewrite Hn'.
  revert pre acc; induction rest as [| shape rest IH]; intros pre acc Hin.
  - destruct Hin.
  - cbn [length seq for_in].
    unfold list_get at 1.
    rewrite nth_error_app2, Nat.sub_diag by lia. cbn [nth_error bind].
    destruct shape as [| gbsz shape].
    + reflexivity.
    + cbn [list_get nth_error bind].
      destruct Hin as [Hin | Hin]; [discriminate Hin |].
      replace (pre ++ (gbsz :: shape) :: rest)
        with ((pre ++ [gbsz :: shape]) ++ rest)
        by (now rewrite <- app_assoc).
      replace (S (length pre)) with (length (pre ++ [gbsz :: shape]))
        by (rewrite length_app; simpl; lia).
      now apply IH.
Qed.

(** X6. With at most one rank [create_inputs_var] declares every input
    with its own shape, whatever the shapes are; with several ranks an
    input without a first dimension (a 0-d array) makes it fail with an
    IndexError. *)
Theorem create_inputs_var_edge_cases :
  (forall n r (inputs : list (list nat)),
     n <= 1 ->
     Partition.create_inputs_var n r inputs =
     Ok (map (fun '(i, shape) =>
                Partition.mk_static_data ("input" ++ str i)%string shape
                  "float32" false)
             (enumerate inputs))) /\
  (forall n r (inputs : list (list nat)),
     1 < n -> In [] inputs ->
     Partition.create_inputs_var n r inputs = Err IndexError).
Proof.
  split.
  - intros n r inputs Hn.
    exact (@create_inputs_var_single_loop n r inputs [] [] Hn).
  - intros n r inputs Hn Hin.
    exact (@create_inputs_var_scalar_loop n r inputs [] [] Hn Hin).
Qed.

Lemma create_inputs_var_edge_cases_witness :
  Partition.create_inputs_var 2 0 [[4; 3]; []] = Err IndexError /\
  Partition.create_inputs_var 1 0 [[4; 3]; []] =
  Ok [Partition.mk_static_data "input0" [4; 3] "float32" false;
      Partition.mk_static_data "input1" [] "float32" false].
Proof.
  destruct create_inputs_var_edge_cases as [Hsingle Hscalar].
  split.
  - apply Hscalar; [lia | simpl; auto].
  - apply (Hsingle 1 0 [[4; 3]; []]). lia.
Defined.

(** ** Norms and partitions *)

Lemma sum_squares_app (x y : list R) :
  Tensor.sum_squares (x ++ y) =
  (Tensor.sum_squares x + Tensor.sum_squares y)%R.
Proof. unfold Tensor.sum_squares. now rewrite map_app, sum_app. Qed.

Lemma sum_squares_concat (ls : list (list R)) :
  Tensor.sum_squares (concat ls) = Tensor.sum (map Tensor.sum_squares ls).
Proof.
  induction ls as [| l ls IH]; simpl.
  - reflexivity.
  - rewrite sum_squares_app, IH. reflexivity.
Qed.

Lemma sum_squares_eq_zero (x : list R) :
  Tensor.sum_squares x = 0%R -> Forall (fun e => e = 0%R) x.
Proof.
  induction x as [| e x IH]; intros H.
  - constructor.
  - change (Tensor.sum_squares (e :: x))
      with (e * e + Tensor.sum_squares x)%R in H.
    pose proof (sum_squares_nonneg x) as Hx.
    pose proof (Rle_0_sqr e) as He. unfold Rsqr in He.
    constructor.
    + assert (Hee : (e * e = 0)%R) by lra.
      apply Rmult_integral in Hee. now destruct Hee.
    + apply IH. lra.
Qed.

Lemma l2_norm_square_value (x : list R) (scale : option R) :
  scale <> Some 0%R -> Tensor.l2_norm_square x scale = Tensor.sum_squares x.
Proof.
  intros Hs. destruct scale as [s |].
  - apply l2_norm_square_some. intros ->. now apply Hs.
  - apply l2_norm_square_none.
Qed.

(** X7. [l2_norm_square] is definite: for a scale that is omitted or not
    zero, it returns 0 exactly when every element of the tensor is 0. *)
Theorem l2_norm_square_definite :
  forall (x : list R) (scale : option R),
    scale <> Some 0%R ->
    (Tensor.l2_norm_square x scale = 0%R <-> Forall (fun e => e = 0%R) x).
Proof.
  intros x scale Hs. rewrite (l2_norm_square_value x Hs). split.
  - apply sum_squares_eq_zero.
  - apply sum_squares_zero.
Qed.

Lemma l2_norm_square_definite_witness :
  Tensor.l2_norm_square [0; 0]%R (Some 10000%R) = 0%R <->
  Forall (fun e => e = 0%R) [0; 0]%R.
Proof.
  apply (@l2_norm_square_definite [0; 0]%R (Some 10000%R)).
  intros H. injection H as H. lra.
Defined.

(** X8. [l2_norm_square] adds up over the rows: the value on two tensors
    put one after the other is the sum of the two values, and the values
    on the slices that [data_parallel_partition] gives to the ranks add up
    to the value on the whole tensor. *)
Theorem l2_norm_square_over_ranks :
  forall (scale : option R),
    scale <> Some 0%R ->
    (forall x y : list R,
       Tensor.l2_norm_square (x ++ y) scale =
       (Tensor.l2_norm_square x scale + Tensor.l2_norm_square y scale)%R) /\
    (forall n (x : list R),
       1 <= n ->
       Tensor.sum
         (map (fun r =>
                 Tensor.l2_norm_square (Partition.partition_slice n r x)
                   scale)
              (seq 0 n)) =
       Tensor.l2_norm_square x scale).
Proof.
  intros scale Hs. split.
  - intros x y. rewrite !(l2_norm_square_value _ Hs).
    apply sum_squares_app.
  - intros n x Hn. rewrite (l2_norm_square_value x Hs).
    transitivity
      (Tensor.sum_squares
         (concat (map (fun r => Partition.partition_slice n r x)
                      (seq 0 n))));
      [| now rewrite (concat_partition x Hn)].
    rewrite sum_squares_concat, map_map. f_equal.
    apply map_ext. intros r. apply (l2_norm_square_value _ Hs).
Qed.

Lemma l2_norm_square_over_ranks_witness :
  Tensor.sum
    (map (fun r =>
            Tensor.l2_norm_square
              (Partition.partition_slice 2 r [1; 2; 3]%R) None)
         (seq 0 2)) =
  Tensor.l2_norm_square [1; 2; 3]%R None.
Proof.
  assert (Hs : @None R <> Some 0%R) by discriminate.
  apply (proj2 (l2_norm_square_over_ranks Hs) 2 [1; 2; 3]%R). lia.
Defined.

(** X9. [l2_norm_square] is homogeneous of degree two: multiplying every
    element by [k] multiplies the value by [k * k]. *)
Theorem l2_norm_square_homogeneous :
  forall (x : list R) (scale : option R) (k : R),
    scale <> Some 0%R ->
    Tensor.l2_norm_square (map (fun e => e * k)%R x) scale =
    (k * k * Tensor.l2_norm_square x scale)%R.
Proof.
  intros x scale k Hs. rewrite !(l2_norm_square_value _ Hs).
  apply sum_squares_scale.
Qed.

Lemma l2_norm_square_homogeneous_witness :
  Tensor.l2_norm_square (map (fun e => e * 3)%R [1; 2]%R) None =
  (3 * 3 * Tensor.l2_norm_square [1; 2]%R None)%R.
Proof.
  apply (@l2_norm_square_homogeneous [1; 2]%R None 3%R). discriminate.
Defined.

(** ** More on the boundary-condition loss *)

(** X10. [compute_bc_loss] returns a value exactly when every subscript it
    evaluates finds its element and every term can be computed: each
    boundary needs [outputs_var[i+1]] and its entry of [pde_disc.bc], and
    each of its conditions needs the label of the same position and a
    term the engine can compute.  The labels of a boundary without
    conditions are never looked up. *)
Theorem compute_bc_loss_returns_iff :
  forall (getitem_none : list Tensor.row4 -> Tensor.tensor) (I : Type)
    (inputs_attr_bc : Tensor.dict I)
    (labels_attr_bc : Tensor.dict (list Loss.bc_label))
    (outputs_var : list (list Tensor.row4))
    (pde_disc_bc : Tensor.dict (list Loss.bc_cond)),
    (exists v,
       Loss.compute_bc_loss getitem_none inputs_attr_bc labels_attr_bc
         outputs_var pde_disc_bc = Ok v) <->
    Conditions.bc_runs getitem_none (Tensor.dict_keys inputs_attr_bc)
      labels_attr_bc outputs_var pde_disc_bc.
Proof.
  intros getitem_none I inputs_attr_bc labels_attr_bc outputs_var
    pde_disc_bc.
  unfold Loss.compute_bc_loss. split.
  - intros [v H] i name_b Hi. apply enumerate_in in Hi.
    destruct (for_in_ok_all _ _ _ H _ Hi) as (s1 & s2 & Hbody).
    cbv beta iota in Hbody.
    apply bind_ok_inv in Hbody as (out_el & Hout & Hbody).
    apply bind_ok_inv in Hbody as (conds & Hpde & Hbody).
    exists out_el, conds.
    split; [now apply list_get_ok |].
    split; [now apply dict_getitem_ok |].
    intros j cond Hj.
    assert (Hin : In j (range (length conds))).
    { apply in_seq. split; [lia |]. simpl.
      apply nth_error_Some. congruence. }
    destruct (for_in_ok_all _ _ _ Hbody _ Hin) as (t1 & t2 & Hstep).
    cbv beta zeta in Hstep.
    apply bind_ok_inv in Hstep as (labels & Hlab & Hstep).
    apply bind_ok_inv in Hstep as (label & Hl & Hstep).
    apply bind_ok_inv in Hstep as (cond' & Hc & Hstep).
    apply bind_ok_inv in Hstep as (term & Hterm & _).
    apply list_get_ok in Hc. rewrite Hj in Hc. injection Hc as <-.
    exists labels, label, term.
    split; [now apply dict_getitem_ok |].
    split; [now apply list_get_ok | exact Hterm].
  - intros Hruns. apply for_in_total.
    intros [i name_b] s Hin. apply in_enumerate in Hin.
    destruct (Hruns i name_b Hin) as (out_el & conds & Hout & Hpde & Hc).
    rewrite (list_get_nth_error _ _ Hout). cbn [bind].
    unfold Tensor.dict_getitem at 1. rewrite Hpde. cbn [bind].
    apply for_in_total. intros j t Hj. apply in_seq in Hj.
    destruct (nth_error conds j) as [cond |] eqn:Hcj;
      [| apply nth_error_None in Hcj; lia].
    destruct (Hc j cond Hcj) as (labels & label & c & Hlab & Hl & Hterm).
    unfold Tensor.dict_getitem. rewrite Hlab. cbn [bind].
    rewrite (list_get_nth_error _ _ Hl), (list_get_nth_error _ _ Hcj).
    cbn [bind]. rewrite Hterm. cbn [bind]. now eexists.
Qed.

Lemma compute_bc_loss_returns_iff_witness :
  Conditions.bc_runs Examples.reject_none
    (Tensor.dict_keys Examples.inputs_attr_bc) Examples.labels_attr_bc
    Examples.outputs_var Examples.pde_disc_bc.
Proof.
  apply (proj1 (compute_bc_loss_returns_iff Examples.reject_none
                  Examples.inputs_attr_bc Examples.labels_attr_bc
                  Examples.outputs_var Examples.pde_disc_bc)).
  eexists. apply compute_bc_loss_closed. exact examples_well_formed.
Defined.

(** X11. [compute_bc_loss] never reads [outputs_var[0]]: the i-th boundary
    is on [outputs_var[i+1]], so the value is the same whatever the first
    tensor of the list is. *)
Theorem compute_bc_loss_ignores_first_output :
  forall (getitem_none : list Tensor.row4 -> Tensor.tensor) (I : Type)
    (inputs_attr_bc : Tensor.dict I)
    (labels_attr_bc : Tensor.dict (list Loss.bc_label))
    (out0 out0' : list Tensor.row4) (outputs : list (list Tensor.row4))
    (pde_disc_bc : Tensor.dict (list Loss.bc_cond)),
    Loss.compute_bc_loss getitem_none inputs_attr_bc labels_attr_bc
      (out0 :: outputs) pde_disc_bc =
    Loss.compute_bc_loss getitem_none inputs_attr_bc labels_attr_bc
      (out0' :: outputs) pde_disc_bc.
Proof.
  intros. unfold Loss.compute_bc_loss. apply for_in_ext.
  intros [i name_b] s _. unfold list_get.
  rewrite !Nat.add_1_r. reflexivity.
Qed.

Lemma sum_nonneg (l : list R) :
  Forall (fun e => 0 <= e)%R l -> (0 <= Tensor.sum l)%R.
Proof.
  unfold Tensor.sum. induction 1 as [| e l He _ IH]; simpl; lra.
Qed.

Lemma sum_nonneg_zero (l : list R) :
  Forall (fun e => 0 <= e)%R l -> Tensor.sum l = 0%R ->
  Forall (fun e => e = 0%R) l.
Proof.
  induction 1 as [| e l He Hl IH]; intros H.
  - constructor.
  - pose proof (sum_nonneg Hl) as Hs.
    change (Tensor.sum (e :: l)) with (e + Tensor.sum l)%R in H.
    constructor; [lra | apply IH; lra].
Qed.

Lemma dict_find_in (V : Type) (d : Tensor.dict V) (k : string) (v : V) :
  Tensor.dict_find d k = Some v -> In (k, v) d.
Proof.
  induction d as [| [k' v'] d IH]; simpl; [discriminate |].
  destruct (String.eqb_spec k' k) as [-> | _].
  - intros H. injection H as <-. now left.
  - intros H. right. now apply IH.
Qed.

(** X12. On a consistent configuration with positive weights
    [compute_bc_loss] returns 0 exactly when no output deviates from its
    target. *)
Theorem compute_bc_loss_definite :
  forall (getitem_none : list Tensor.row4 -> Tensor.tensor) (I : Type)
    (inputs_attr_bc : Tensor.dict I)
    (labels_attr_bc : Tensor.dict (list Loss.bc_label))
    (outputs_var : list (list Tensor.row4))
    (pde_disc_bc : Tensor.dict (list Loss.bc_cond)),
    Spec.bc_well_formed (Tensor.dict_keys inputs_attr_bc) labels_attr_bc
      outputs_var pde_disc_bc ->
    Conditions.weights_positive labels_attr_bc ->
    (Loss.compute_bc_loss getitem_none inputs_attr_bc labels_attr_bc
       outputs_var pde_disc_bc = Ok 0%R <->
     Spec.bc_zero_mismatch (Tensor.dict_keys inputs_attr_bc) labels_attr_bc
       outputs_var pde_disc_bc).
Proof.
  intros getitem_none I inputs_attr_bc labels_attr_bc outputs_var
    pde_disc_bc Hwf Hpos.
  split; [| now apply compute_bc_loss_zero].
  rewrite compute_bc_loss_closed by exact Hwf.
  intros H. injection H as H. unfold Spec.bc_loss in H.
  assert (Hterm : forall i name_b cond label,
            nth_error (Tensor.dict_keys inputs_attr_bc) i = Some name_b ->
            In (cond, label)
               (combine (Spec.lookup pde_disc_bc name_b)
                        (Spec.lookup labels_attr_bc name_b)) ->
            (0 < Loss.weight label)%R).
  { intros i name_b cond label Hi Hin.
    destruct (Hwf i name_b Hi) as (_ & _ & labels & _ & _ & Hlab & _).
    apply in_combine_r in Hin. unfold Spec.lookup in Hin.
    rewrite Hlab in Hin. apply dict_find_in in Hlab.
    unfold Conditions.weights_positive in Hpos.
    rewrite Forall_forall in Hpos. specialize (Hpos _ Hlab).
    rewrite Forall_forall in Hpos. now apply Hpos. }
  assert (Hnn : forall i name_b,
            nth_error (Tensor.dict_keys inputs_attr_bc) i = Some name_b ->
            Forall (fun e => 0 <= e)%R
              (map (fun '(cond, label) =>
                      Spec.bc_term (nth (i + 1) outputs_var []) cond label)
                   (combine (Spec.lookup pde_disc_bc name_b)
                            (Spec.lookup labels_attr_bc name_b)))).
  { intros i name_b Hi. apply Forall_forall. intros e He.
    apply in_map_iff in He as ([cond label] & <- & Hin).
    pose proof (Hterm i name_b cond label Hi Hin) as Hw.
    unfold Spec.bc_term.
    apply Rmult_le_pos; [lra | apply sum_squares_nonneg]. }
  apply sum_nonneg_zero in H.
  - intros i name_b Hi.
    rewrite Forall_forall in H.
    assert (Hzero : Tensor.sum
              (map (fun '(cond, label) =>
                      Spec.bc_term (nth (i + 1) outputs_var []) cond label)
                   (combine (Spec.lookup pde_disc_bc name_b)
                            (Spec.lookup labels_attr_bc name_b))) = 0%R).
    { apply H. apply in_map_iff. exists (i, name_b).
      split; [reflexivity | now apply enumerate_in]. }
    apply sum_nonneg_zero in Hzero; [| now apply Hnn].
    rewrite Forall_forall in Hzero.
    apply Forall_forall. intros [cond label] Hin.
    pose proof (Hterm i name_b cond label Hi Hin) as Hw.
    apply sum_squares_eq_zero.
    assert (Hz : Spec.bc_term (nth (i + 1) outputs_var []) cond label = 0%R).
    { apply Hzero. apply in_map_iff. now exists (cond, label). }
    unfold Spec.bc_term in Hz.
    apply Rmult_integral in Hz. destruct Hz as [Hz | Hz]; [lra | exact Hz].
  - apply Forall_forall. intros e He.
    apply in_map_iff in He as ([i name_b] & <- & Hin).
    apply in_enumerate in Hin. apply sum_nonneg. now apply Hnn.
Qed.

Lemma matched_weights_positive :
  Conditions.weights_positive Examples.matched_labels.
Proof.
  unfold Conditions.weights_positive, Examples.matched_labels.
  repeat (first [apply Forall_cons | apply Forall_nil]; simpl); lra.
Qed.

Lemma compute_bc_loss_definite_witness :
  Loss.compute_bc_loss Examples.reject_none Examples.wall_attr
    Examples.matched_labels Examples.wall_outputs (Examples.wall_conds "u")
  = Ok 0%R <->
  Spec.bc_zero_mismatch (Tensor.dict_keys Examples.wall_attr)
    Examples.matched_labels Examples.wall_outputs (Examples.wall_conds "u").
Proof.
  apply (@compute_bc_loss_definite Examples.reject_none unit
           Examples.wall_attr Examples.matched_labels Examples.wall_outputs
           (Examples.wall_conds "u")).
  - exact matched_well_formed.
  - exact matched_weights_positive.
Defined.

Lemma bc_contribution_scale (getitem_none : list Tensor.row4 -> Tensor.tensor)
  (out_el : list Tensor.row4) (index : option nat) (rhs_b : Tensor.operand)
  (k wgt_b c : R) :
  (0 <= k)%R -> (0 <= wgt_b)%R ->
  Loss.bc_contribution getitem_none out_el index rhs_b wgt_b = Ok c ->
  Loss.bc_contribution getitem_none out_el index rhs_b (k * wgt_b)
  = Ok (k * c)%R.
Proof.
  intros Hk Hw Hc.
  destruct (bc_contribution_value _ _ _ _ Hw Hc) as (d & Hd & ->).
  unfold Loss.bc_contribution. rewrite Hd. simpl. f_equal.
  rewrite l2_norm_square_some by lra.
  rewrite sum_squares_weight by (apply Rmult_le_pos; assumption). ring.
Qed.

Lemma dict_find_scale_weights (k : R)
  (d : Tensor.dict (list Loss.bc_label)) (key : string) :
  Tensor.dict_find (Conditions.scale_weights k d) key =
  option_map
    (map (fun label =>
            Loss.mk_bc_label (Loss.rhs label) (k * Loss.weight label)%R))
    (Tensor.dict_find d key).
Proof.
  induction d as [| [key' v] d IH]; simpl; [reflexivity |].
  destruct (String.eqb key' key); [reflexivity | exact IH].
Qed.

(** X13. The boundary loss is linear in the weights: when no weight is
    negative, multiplying every weight by [k >= 0] multiplies the value
    that [compute_bc_loss] returns by [k]. *)
Theorem compute_bc_loss_linear_in_weights :
  forall (getitem_none : list Tensor.row4 -> Tensor.tensor) (I : Type)
    (inputs_attr_bc : Tensor.dict I)
    (labels_attr_bc : Tensor.dict (list Loss.bc_label))
    (outputs_var : list (list Tensor.row4))
    (pde_disc_bc : Tensor.dict (list Loss.bc_cond)) (k v : R),
    (0 <= k)%R ->
    Spec.weights_nonneg labels_attr_bc ->
    Loss.compute_bc_loss getitem_none inputs_attr_bc labels_attr_bc
      outputs_var pde_disc_bc = Ok v ->
    Loss.compute_bc_loss getitem_none inputs_attr_bc
      (Conditions.scale_weights k labels_attr_bc) outputs_var pde_disc_bc
    = Ok (k * v)%R.
Proof.
  intros getitem_none I inputs_attr_bc labels_attr_bc outputs_var
    pde_disc_bc k v Hk Hnn H.
  unfold Loss.compute_bc_loss in *.
  assert (Hrel : exists t,
    for_in (enumerate (Tensor.dict_keys inputs_attr_bc))
      (fun '(i, name_b) bc_loss =>
         out_el <- list_get outputs_var (i + 1) ;;
         conds <- Tensor.dict_getitem pde_disc_bc name_b ;;
         for_in (range (length conds))
           (fun j bc_loss =>
              labels <- Tensor.dict_getitem
                          (Conditions.scale_weights k labels_attr_bc)
                          name_b ;;
              label <- list_get labels j ;;
              let rhs_b := Loss.rhs label in
              let wgt_b := Loss.weight label in
              cond <- list_get conds j ;;
              let index :=
                Tensor.dict_get Loss.name2index (Loss.name cond) in
              term <- Loss.bc_contribution getitem_none out_el index rhs_b
                        wgt_b ;;
              Ok (bc_loss + term)%R)
           bc_loss)
      0%R = Ok t /\ t = (k * v)%R).
  { eapply for_in_related with (rel := fun s t => t = (k * s)%R);
      [| | exact H]; [| lra].
    intros [i name_b] s t s' _ -> Hbody. cbv beta iota in Hbody |- *.
    apply bind_ok_inv in Hbody as (out_el & Hout & Hbody).
    apply bind_ok_inv in Hbody as (conds & Hpde & Hbody).
    rewrite Hout, Hpde. cbn [bind].
    eapply for_in_related with (rel := fun s t => t = (k * s)%R);
      [| reflexivity | exact Hbody].
    intros j a b a' _ -> Hstep. cbv beta zeta in Hstep |- *.
    apply bind_ok_inv in Hstep as (labels & Hlab & Hstep).
    apply bind_ok_inv in Hstep as (label & Hl & Hstep).
    apply bind_ok_inv in Hstep as (cond & Hc & Hstep).
    apply bind_ok_inv in Hstep as (term & Hterm & Hstep).
    injection Hstep as <-.
    apply dict_getitem_ok in Hlab. apply list_get_ok in Hl.
    unfold Tensor.dict_getitem.
    rewrite dict_find_scale_weights, Hlab. cbn [option_map bind].
    unfold list_get at 1. rewrite nth_error_map, Hl.
    cbn [option_map bind Loss.rhs Loss.weight]. rewrite Hc. cbn [bind].
    assert (Hw : (0 <= Loss.weight label)%R).
    { apply dict_find_in in Hlab. apply nth_error_In in Hl.
      unfold Spec.weights_nonneg in Hnn. rewrite Forall_forall in Hnn.
      specialize (Hnn _ Hlab). rewrite Forall_forall in Hnn.
      now apply Hnn. }
    rewrite (bc_contribution_scale _ _ _ _ Hk Hw Hterm). cbn [bind].
    eexists. split; [reflexivity | ring]. }
  destruct Hrel as (t & Ht & ->). exact Ht.
Qed.

Lemma compute_bc_loss_linear_in_weights_witness :
  Loss.compute_bc_loss Examples.reject_none Examples.inputs_attr_bc
    (Conditions.scale_weights 3 Examples.labels_attr_bc)
    Examples.outputs_var Examples.pde_disc_bc
  = Ok (3 * Spec.bc_loss (Tensor.dict_keys Examples.inputs_attr_bc)
              Examples.labels_attr_bc Examples.outputs_var
              Examples.pde_disc_bc)%R.
Proof.
  apply (@compute_bc_loss_linear_in_weights Examples.reject_none unit
           Examples.inputs_attr_bc Examples.labels_attr_bc
           Examples.outputs_var Examples.pde_disc_bc 3%R).
  - lra.
  - exact examples_weights_nonneg.
  - apply compute_bc_loss_closed. exact examples_well_formed.
Defined.

(** X14. The failures of [compute_bc_loss] at the first boundary, in the
    order in which the code meets them: no [outputs_var[1]] is an
    IndexError; a name missing from [pde_disc.bc] is a KeyError of that
    name; with at least one condition, a name missing from
    [labels_attr["bc"]] is a KeyError of that name and an empty list of
    labels is an IndexError.  With no condition and no label the boundary
    adds nothing and the loop goes on. *)
Theorem compute_bc_loss_first_boundary_errors :
  forall (getitem_none : list Tensor.row4 -> Tensor.tensor) (I : Type)
    (key : string) (v : I) (rest : Tensor.dict I)
    (labels_attr_bc : Tensor.dict (list Loss.bc_label))
    (outputs_var : list (list Tensor.row4))
    (pde_disc_bc : Tensor.dict (list Loss.bc_cond)),
    let loss :=
      Loss.compute_bc_loss getitem_none ((key, v) :: rest) labels_attr_bc
        outputs_var pde_disc_bc in
    (length outputs_var <= 1 -> loss = Err IndexError) /\
    (1 < length outputs_var ->
     Tensor.dict_find pde_disc_bc key = None ->
     loss = Err (KeyError key)) /\
    (forall cond conds,
       1 < length outputs_var ->
       Tensor.dict_find pde_disc_bc key = Some (cond :: conds) ->
       (Tensor.dict_find labels_attr_bc key = None ->
        loss = Err (KeyError key)) /\
       (Tensor.dict_find labels_attr_bc key = Some [] ->
        loss = Err IndexError)) /\
    (1 < length outputs_var ->
     Tensor.dict_find pde_disc_bc key = Some [] ->
     rest = [] ->
     loss = Ok 0%R).
Proof.
  intros getitem_none I key v rest labels_attr_bc outputs_var pde_disc_bc
    loss.
  subst loss. unfold Loss.compute_bc_loss, enumerate, Tensor.dict_keys.
  cbn [map fst length seq combine for_in Nat.add].
  assert (Hshort : length outputs_var <= 1 ->
                   list_get outputs_var 1 = Err IndexError).
  { intros Hlen. unfold list_get.
    replace (nth_error outputs_var 1) with (@None (list Tensor.row4));
      [reflexivity |].
    symmetry. apply nth_error_None. exact Hlen. }
  assert (Hlong : 1 < length outputs_var ->
                  exists out_el, list_get outputs_var 1 = Ok out_el).
  { intros Hlen. unfold list_get.
    destruct (nth_error outputs_var 1) as [out_el |] eqn:E.
    - now exists out_el.
    - apply nth_error_None in E. lia. }
  split; [| split; [| split]].
  - intros Hlen. now rewrite (Hshort Hlen).
  - intros Hlen Hpde. destruct (Hlong Hlen) as [out_el ->].
    cbn [bind]. unfold Tensor.dict_getitem. now rewrite Hpde.
  - intros cond conds Hlen Hpde. destruct (Hlong Hlen) as [out_el ->].
    cbn [bind]. unfold Tensor.dict_getitem. rewrite Hpde.
    cbn [bind length]. unfold range. cbn [seq for_in]. cbv beta.
    split; intros Hlab; rewrite Hlab; reflexivity.
  - intros Hlen Hpde ->. destruct (Hlong Hlen) as [out_el ->].
    cbn [bind]. unfold Tensor.dict_getitem. rewrite Hpde.
    reflexivity.
Qed.

Lemma compute_bc_loss_first_boundary_errors_witness :
  Loss.compute_bc_loss Examples.reject_none Examples.wall_attr
    (Examples.wall_labels 1) [[]] (Examples.wall_conds "u")
  = Err IndexError /\
  Loss.compute_bc_loss Examples.reject_none Examples.wall_attr
    (Examples.wall_labels 1) Examples.wall_outputs []
  = Err (KeyError "wall").
Proof.
  split.
  - apply (proj1 (compute_bc_loss_first_boundary_errors
                    Examples.reject_none "wall" tt []
                    (Examples.wall_labels 1) [[]]
                    (Examples.wall_conds "u"))).
    simpl. lia.
  - apply (proj1 (proj2 (compute_bc_loss_first_boundary_errors
                           Examples.reject_none "wall" tt []
                           (Examples.wall_labels 1) Examples.wall_outputs
                           []))).
    + simpl. lia.
    + reflexivity.
Defined.

(** ** More on the equation loss *)

(** X15. [compute_eq_loss] reads the labels 0, 1 and 2 only: with fewer
    than three labels it fails with an IndexError, whatever the tensors
    and the engine, and labels after the third do not change its
    outcome. *)
Theorem compute_eq_loss_reads_three_labels :
  forall (gradients : Loss.Var (list R) -> Loss.Var (list Tensor.row3))
    (inputs : list Tensor.row3) (outputs : Loss.Var (list Tensor.row4)),
    (forall labels_var,
       length labels_var < 3 ->
       Loss.compute_eq_loss gradients inputs outputs labels_var
       = Err IndexError) /\
    (forall u_n v_n w_n rest rest',
       Loss.compute_eq_loss gradients inputs outputs
         (u_n :: v_n :: w_n :: rest) =
       Loss.compute_eq_loss gradients inputs outputs
         (u_n :: v_n :: w_n :: rest')).
Proof.
  intros gradients inputs outputs. split.
  - intros labels_var Hlen. unfold Loss.compute_eq_loss.
    destruct labels_var as [| u_n [| v_n [| w_n rest]]];
      try reflexivity.
    simpl in Hlen. lia.
  - intros. reflexivity.
Qed.

Lemma compute_eq_loss_reads_three_labels_witness :
  Loss.compute_eq_loss Examples.fd_gradients Examples.two_points
    Examples.affine_field [[0; 1]; [2; 0]]%R = Err IndexError.
Proof.
  apply (proj1 (compute_eq_loss_reads_three_labels Examples.fd_gradients
                  Examples.two_points Examples.affine_field)).
  simpl. lia.
Defined.

Lemma tabulate_zero_inv (n : nat) (f : nat -> R) :
  Forall (fun e => e = 0%R) (Spec.tabulate n f) ->
  forall i, i < n -> f i = 0%R.
Proof.
  intros H i Hi. rewrite Forall_forall in H. apply H.
  unfold Spec.tabulate. apply in_map. apply in_seq. lia.
Qed.

(** X16. On tensors of matching shapes [compute_eq_loss] returns 0 exactly
    when the continuity residual and the three momentum residuals vanish
    on every row. *)
Theorem compute_eq_loss_definite :
  forall (gradients : Loss.Var (list R) -> Loss.Var (list Tensor.row3))
    (inputs : list Tensor.row3) (outputs : Loss.Var (list Tensor.row4))
    (u_n v_n w_n : list R) (rest : list (list R)),
    Spec.eq_shapes gradients inputs outputs u_n v_n w_n ->
    (Loss.compute_eq_loss gradients inputs outputs
       (u_n :: v_n :: w_n :: rest) = Ok 0%R <->
     forall i, i < length inputs ->
       Spec.continuity gradients inputs outputs i = 0%R /\
       Spec.momentum gradients inputs outputs 0 u_n i = 0%R /\
       Spec.momentum gradients inputs outputs 1 v_n i = 0%R /\
       Spec.momentum gradients inputs outputs 2 w_n i = 0%R).
Proof.
  intros gradients inputs outputs u_n v_n w_n rest Hshapes.
  split; [| now apply compute_eq_loss_zero].
  rewrite (compute_eq_loss_closed rest Hshapes).
  intros H. injection H as H.
  unfold Spec.eq_loss, Spec.residuals in H. cbn [map] in H.
  unfold Tensor.sum in H. cbn [fold_right] in H.
  set (n := length inputs) in *.
  pose proof (sum_squares_nonneg
                (Spec.tabulate n (Spec.continuity gradients inputs outputs)))
    as H0.
  pose proof (sum_squares_nonneg
                (Spec.tabulate n
                   (Spec.momentum gradients inputs outputs 0 u_n))) as H1.
  pose proof (sum_squares_nonneg
                (Spec.tabulate n
                   (Spec.momentum gradients inputs outputs 1 v_n))) as H2.
  pose proof (sum_squares_nonneg
                (Spec.tabulate n
                   (Spec.momentum gradients inputs outputs 2 w_n))) as H3.
  intros i Hi.
  repeat split;
    apply (@tabulate_zero_inv n _); try exact Hi;
    apply sum_squares_eq_zero; lra.
Qed.

Lemma compute_eq_loss_definite_witness :
  Loss.compute_eq_loss Examples.fd_gradients Examples.two_points
    Examples.affine_field Examples.two_labels = Ok 0%R <->
  forall i, i < length Examples.two_points ->
    Spec.continuity Examples.fd_gradients Examples.two_points
      Examples.affine_field i = 0%R /\
    Spec.momentum Examples.fd_gradients Examples.two_points
      Examples.affine_field 0 [0; 1]%R i = 0%R /\
    Spec.momentum Examples.fd_gradients Examples.two_points
      Examples.affine_field 1 [2; 0]%R i = 0%R /\
    Spec.momentum Examples.fd_gradients Examples.two_points
      Examples.affine_field 2 [1; 1]%R i = 0%R.
Proof.
  apply (@compute_eq_loss_definite Examples.fd_gradients
           Examples.two_points Examples.affine_field
           [0; 1]%R [2; 0]%R [1; 1]%R []).
  exact fd_eq_shapes.
Defined.

Section GaugeFacts.

Import Tensor Loss Calculus.
Local Open Scope R_scope.

(** Two targets whose sums differ by a number that the entries of
    [inputs] do not change have the same gradient. *)
Lemma is_gradient_up_to_constant (T T' : Var (list R))
  (GT GT' : Var (list row3)) (C : list row3 -> R) :
  is_gradient T GT -> is_gradient T' GT' ->
  (forall X i k t,
     sum (T' (set_entry X i k t)) = sum (T (set_entry X i k t)) + C X) ->
  forall X, GT' X = GT X.
Proof.
  intros HT HT' Heq X.
  destruct (HT X) as [Hlen Hd]. destruct (HT' X) as [Hlen' Hd'].
  apply rows_ext; [congruence |].
  intros i k Hi Hk. rewrite Hlen' in Hi.
  specialize (Hd i k Hi Hk). specialize (Hd' i k Hi Hk).
  unfold partial in Hd, Hd'.
  eapply uniqueness_limite; [exact Hd' |].
  apply derivable_pt_lim_ext
    with (f := fun t => sum (T (set_entry X i k t)) + C X).
  - intros t. symmetry. apply Heq.
  - replace (entry (GT X) i k) with (entry (GT X) i k + 0) by ring.
    apply (derivable_pt_lim_plus
             (fun t => sum (T (set_entry X i k t))) (fun _ => C X)).
    + exact Hd.
    + apply derivable_pt_lim_const.
Qed.

Lemma col4_add_pressure (k : R) (rows : list row4) (c : nat) :
  (c < 3)%nat ->
  col4 (map (fun r => mk_row4 (r4_0 r) (r4_1 r) (r4_2 r) (r4_3 r + k)) rows)
       c
  = col4 rows c.
Proof.
  intros Hc. unfold col4. rewrite map_map. apply map_ext. intros r.
  destruct c as [| [| [| c]]]; try reflexivity; lia.
Qed.

Lemma sum_pressure_add_pressure (k : R) (rows : list row4) :
  sum (col4 (map (fun r => mk_row4 (r4_0 r) (r4_1 r) (r4_2 r) (r4_3 r + k))
                 rows) 3)
  = sum (col4 rows 3) + k * INR (length rows).
Proof.
  unfold col4, sum. rewrite map_map.
  induction rows as [| r rows IH].
  - simpl. ring.
  - cbn [map fold_right length]. rewrite IH, S_INR. simpl. ring.
Qed.

Lemma nth_constant (A : Type) (a : R) (X : list A) (i : nat) :
  (i < length X)%nat -> nth i (map (fun _ => a) X) 0 = a.
Proof.
  revert i; induction X as [| x X IH]; intros [| i] Hi; simpl in *;
    try lia; [reflexivity | apply IH; lia].
Qed.

Lemma nth_repeat_lt (a : R) (n i : nat) :
  (i < n)%nat -> nth i (repeat a n) 0 = a.
Proof.
  revert i; induction n as [| n IH]; intros [| i] Hi; simpl;
    try lia; [reflexivity | apply IH; lia].
Qed.

End GaugeFacts.

(** X17. The pressure enters [compute_eq_loss] through its gradient only:
    when the engine's gradients are the gradients and the output has one
    row for each row of [inputs], adding a constant to the pressure column
    leaves the value of the loss unchanged. *)
Theorem compute_eq_loss_pressure_gauge :
  forall (gradients : Loss.Var (list R) -> Loss.Var (list Tensor.row3))
    (k : R) (outputs : Loss.Var (list Tensor.row4))
    (labels_var : list (list R)) (inputs : list Tensor.row3),
    (forall X, length (outputs X) = length X) ->
    Calculus.engine_correct gradients outputs ->
    Calculus.engine_correct gradients (Conditions.add_pressure k outputs) ->
    Loss.compute_eq_loss gradients inputs
      (Conditions.add_pressure k outputs) labels_var =
    Loss.compute_eq_loss gradients inputs outputs labels_var.
Proof.
  intros gradients k outputs labels_var X Hrows [H1 H2] [H1' H2'].
  assert (Ev : forall ch, ch < 3 -> forall Y,
            Loss.column4 (Conditions.add_pressure k outputs) ch Y =
            Loss.column4 outputs ch Y).
  { intros ch Hch Y. unfold Loss.column4, Conditions.add_pressure.
    now apply col4_add_pressure. }
  assert (E1 : forall ch, ch < 4 -> forall Y,
            gradients (Loss.column4 (Conditions.add_pressure k outputs) ch) Y
            = gradients (Loss.column4 outputs ch) Y).
  { intros ch Hch.
    destruct (Nat.eq_dec ch 3) as [-> | Hne].
    - apply (@is_gradient_up_to_constant _ _ _ _
               (fun Y => (k * INR (length Y))%R) (H1 3 Hch) (H1' 3 Hch)).
      intros Y i j t. unfold Loss.column4, Conditions.add_pressure.
      rewrite sum_pressure_add_pressure, Hrows, length_set_entry.
      reflexivity.
    - apply (@is_gradient_up_to_constant _ _ _ _ (fun _ => 0%R)
               (H1 ch Hch) (H1' ch Hch)).
      intros Y i j t. rewrite Ev by lia. ring. }
  assert (E2 : forall ch j, ch < 3 -> j < 3 -> forall Y,
            gradients
              (Loss.column
                 (gradients
                    (Loss.column4 (Conditions.add_pressure k outputs) ch))
                 j) Y
            = gradients (Loss.column (gradients (Loss.column4 outputs ch)) j)
                Y).
  { intros ch j Hch Hj.
    apply (@is_gradient_up_to_constant _ _ _ _ (fun _ => 0%R)
             (H2 ch j Hch Hj) (H2' ch j Hch Hj)).
    intros Y i j' t. unfold Loss.column. rewrite E1 by lia. ring. }
  unfold Loss.compute_eq_loss, Loss.at_inputs. cbv zeta.
  unfold Loss.column in *.
  rewrite (E2 0 0), (E2 0 1), (E2 0 2), (E2 1 0), (E2 1 1), (E2 1 2),
    (E2 2 0), (E2 2 1), (E2 2 2) by lia.
  rewrite (E1 0), (E1 1), (E1 2), (E1 3) by lia.
  rewrite (Ev 0), (Ev 1), (Ev 2) by lia.
  reflexivity.
Qed.

Lemma add_pressure_sum_affine (k : R) (ch : nat) :
  ch < 4 ->
  Calculus.sum_affine
    (Loss.column4 (Conditions.add_pressure k Examples.affine_field) ch)
    (Examples.affine_slopes ch).
Proof.
  intros Hch X i j t Hi Hj.
  destruct (Nat.eq_dec ch 3) as [-> | Hne].
  - unfold Loss.column4, Conditions.add_pressure.
    rewrite !sum_pressure_add_pressure.
    pose proof (@affine_field_sum_affine 3 Hch X i j t Hi Hj) as H.
    unfold Loss.column4 in H. rewrite H.
    unfold Examples.affine_field.
    rewrite !length_map, length_set_entry. ring.
  - unfold Loss.column4, Conditions.add_pressure.
    rewrite !col4_add_pressure by lia.
    apply (@affine_field_sum_affine ch Hch X i j t Hi Hj).
Qed.

Lemma compute_eq_loss_pressure_gauge_witness :
  Loss.compute_eq_loss Examples.fd_gradients Examples.two_points
    (Conditions.add_pressure 7 Examples.affine_field) Examples.two_labels =
  Loss.compute_eq_loss Examples.fd_gradients Examples.two_points
    Examples.affine_field Examples.two_labels.
Proof.
  apply (@compute_eq_loss_pressure_gauge Examples.fd_gradients 7%R
           Examples.affine_field Examples.two_labels Examples.two_points).
  - intros X. apply length_map.
  - exact fd_correct_on_affine_field.
  - apply fd_engine_correct with (a := Examples.affine_slopes).
    intros ch Hch. now apply add_pressure_sum_affine.
Defined.

Lemma map_constant_length (A B : Type) (b : B) (Y Z : list A) :
  length Y = length Z -> map (fun _ => b) Y = map (fun _ => b) Z.
Proof.
  revert Z; induction Y as [| y Y IH]; intros [| z Z] H; simpl in *;
    try discriminate; [reflexivity |].
  f_equal. apply IH. lia.
Qed.

Lemma uniform_flow_gradients
  (gradients : Loss.Var (list R) -> Loss.Var (list Tensor.row3))
  (row : Tensor.row4) :
  Calculus.engine_correct gradients (Conditions.uniform_flow row) ->
  (forall ch X, ch < 4 ->
     gradients (Loss.column4 (Conditions.uniform_flow row) ch) X
     = map (fun _ => Calculus.zero_row) X) /\
  (forall ch k X, ch < 3 -> k < 3 ->
     gradients
       (Loss.column
          (gradients (Loss.column4 (Conditions.uniform_flow row) ch)) k) X
     = map (fun _ => Calculus.zero_row) X).
Proof.
  intros [H1 H2].
  assert (Hjac : forall ch X, ch < 4 ->
            gradients (Loss.column4 (Conditions.uniform_flow row) ch) X
            = map (fun _ => Calculus.zero_row) X).
  { intros ch X Hch.
    apply (is_gradient_insensitive (H1 ch Hch)).
    intros Y i k t.
    unfold Loss.column4, Conditions.uniform_flow, Tensor.col4.
    rewrite !map_map. f_equal.
    apply map_constant_length, length_set_entry. }
  split; [exact Hjac |].
  intros ch k X Hch Hk.
  apply (is_gradient_insensitive (H2 ch k Hch Hk)).
  intros Y i k' t. unfold Loss.column.
  rewrite !Hjac by lia. now rewrite !sum_zero_rows.
Qed.

(** X18. A uniform flow is an exact solution: when every row of the output
    is the same [(u, v, w, p)], the labels of the previous step hold the
    same velocity and the engine's gradients are the gradients,
    [compute_eq_loss] returns 0 at any points. *)
Theorem compute_eq_loss_uniform_flow :
  forall (gradients : Loss.Var (list R) -> Loss.Var (list Tensor.row3))
    (row : Tensor.row4) (inputs : list Tensor.row3),
    Calculus.engine_correct gradients (Conditions.uniform_flow row) ->
    Loss.compute_eq_loss gradients inputs (Conditions.uniform_flow row)
      (Conditions.uniform_labels row (length inputs)) = Ok 0%R.
Proof.
  intros gradients row inputs Hcorrect.
  destruct (uniform_flow_gradients Hcorrect) as [Hjac Hhes].
  unfold Conditions.uniform_labels.
  apply compute_eq_loss_zero.
  - unfold Spec.eq_shapes, Spec.field, Spec.d.
    repeat split; try apply repeat_length.
    + apply length_map.
    + intros c Hc. now rewrite Hjac, length_map.
    + intros c k Hc Hk. now rewrite Hhes, length_map.
  - intros i Hi.
    unfold Spec.continuity, Spec.momentum, Spec.laplacian, Spec.value,
      Spec.d, Spec.field, Spec.nu, Spec.rho, Spec.dt.
    repeat match goal with
           | |- context [Loss.column ?t ?k inputs] =>
               change (Loss.column t k inputs)
                 with (Tensor.col3 (t inputs) k)
           end.
    rewrite !Hhes, !Hjac by lia.
    unfold Loss.column4, Conditions.uniform_flow, Tensor.col3, Tensor.col4.
    rewrite !map_map.
    rewrite !nth_constant, !nth_repeat_lt by exact Hi.
    simpl. repeat split; lra.
Qed.

Lemma fd_correct_on_uniform_flow (row : Tensor.row4) :
  Calculus.engine_correct Examples.fd_gradients
    (Conditions.uniform_flow row).
Proof.
  apply fd_engine_correct with (a := fun _ _ => 0%R).
  intros ch _ X i k t _ _.
  unfold Loss.column4, Conditions.uniform_flow, Tensor.col4.
  rewrite !map_map.
  rewrite (map_constant_length _ _ X (length_set_entry X i k t)). ring.
Qed.

Lemma compute_eq_loss_uniform_flow_witness :
  Loss.compute_eq_loss Examples.fd_gradients Examples.two_points
    (Conditions.uniform_flow (Tensor.mk_row4 1 2 3 4))
    (Conditions.uniform_labels (Tensor.mk_row4 1 2 3 4)
       (length Examples.two_points)) = Ok 0%R.
Proof.
  apply (@compute_eq_loss_uniform_flow Examples.fd_gradients
           (Tensor.mk_row4 1 2 3 4) Examples.two_points).
  apply fd_correct_on_uniform_flow.
Defined.

(** ** The fetch operators *)

Section FetchOps.

Import Tensor Program.

Lemma remove_at_app (A : Type) (l l2 : list A) (x : A) :
  remove_at (length l) (l ++ x :: l2) = l ++ l2.
Proof. induction l as [| y l IH]; simpl; [reflexivity | now rewrite IH]. Qed.

Lemma remove_fetch_loop (l1 l2 : list op) :
  for_in (rev (range (length l1)))
    (fun idx ops =>
       o <- list_get ops idx ;;
       if String.eqb (op_type o) "fetch"
       then Ok (remove_at idx ops)
       else Ok ops)
    (l1 ++ l2) =
  Ok (filter (fun o => negb (is_fetch o)) l1 ++ l2).
Proof.
  revert l2; induction l1 as [| x l1 IH] using rev_ind; intros l2.
  - reflexivity.
  - unfold range in *. rewrite length_app, Nat.add_1_r, seq_S, rev_app_distr.
    cbn [rev app for_in Nat.add].
    rewrite <- app_assoc. cbn [app].
    unfold list_get at 1.
    rewrite nth_error_app2, Nat.sub_diag by lia. cbn [nth_error bind].
    rewrite filter_app. cbn [filter]. unfold is_fetch at 2.
    destruct (String.eqb (op_type x) "fetch"); cbn [bind negb].
    + rewrite remove_at_app, IH, app_nil_r. reflexivity.
    + rewrite IH, <- app_assoc. reflexivity.
Qed.

Lemma filter_idempotent (A : Type) (f : A -> bool) (l : list A) :
  filter f (filter f l) = filter f l.
Proof.
  induction l as [| x l IH]; simpl; [reflexivity |].
  destruct (f x) eqn:E; simpl; rewrite ?E, IH; reflexivity.
Qed.

Lemma filter_all (A : Type) (f : A -> bool) (l : list A) :
  Forall (fun x => f x = true) l -> filter f l = l.
Proof.
  induction 1 as [| x l Hx _ IH]; simpl; [reflexivity |].
  now rewrite Hx, IH.
Qed.

Lemma filter_none (A : Type) (f : A -> bool) (l : list A) :
  Forall (fun x => f x = false) l -> filter f l = [].
Proof.
  induction 1 as [| x l Hx _ IH]; simpl; [reflexivity |].
  now rewrite Hx, IH.
Qed.

Lemma add_fetch_loop (fetch_var_name : string) (fetch_list : list fetch_item)
  (k : nat) (l : list op) :
  for_in (combine (seq k (length fetch_list)) fetch_list)
    (fun '(i, var) ops =>
       Ok (ops ++
             [mk_op "fetch" [("X"%string, [item_name var])]
                [("Out"%string, [fetch_var_name])]
                [("col"%string, i)]]))
    l =
  Ok (l ++
        map (fun '(i, var) =>
               mk_op "fetch" [("X"%string, [item_name var])]
                 [("Out"%string, [fetch_var_name])]
                 [("col"%string, i)])
          (combine (seq k (length fetch_list)) fetch_list)).
Proof.
  revert k l; induction fetch_list as [| var fl IH]; intros k l.
  - simpl. now rewrite app_nil_r.
  - cbn [length seq combine for_in bind map].
    rewrite IH, <- app_assoc. reflexivity.
Qed.

Lemma fetch_ops_are_fetch (fetch_var_name : string)
  (l : list (nat * fetch_item)) :
  Forall (fun o => is_fetch o = true)
    (map (fun '(i, var) =>
            mk_op "fetch" [("X"%string, [item_name var])]
              [("Out"%string, [fetch_var_name])]
              [("col"%string, i)]) l).
Proof.
  induction l as [| [i var] l IH]; simpl; constructor;
    [reflexivity | exact IH].
Qed.

Lemma dict_find_app_new (V : Type) (d : dict V) (k : string) (v : V) :
  dict_find d k = None -> dict_find (d ++ [(k, v)]) k = Some v.
Proof.
  induction d as [| [k' v'] d IH]; simpl.
  - now rewrite String.eqb_refl.
  - destruct (String.eqb k' k); [discriminate | exact IH].
Qed.

Lemma remove_fetch_ops_run (q : program) :
  _remove_fetch_ops q =
  Ok (mk_program (vars q) (filter (fun o => negb (is_fetch o)) (ops q))).
Proof.
  unfold _remove_fetch_ops. cbv zeta.
  rewrite <- (app_nil_r (ops q)) at 2.
  rewrite remove_fetch_loop, app_nil_r. reflexivity.
Qed.

End FetchOps.

(** X19. [_remove_fetch_ops] never fails on an index, although it removes
    operators from the list it walks: going from the last index to the
    first keeps the indices still to visit valid.  It keeps the variables
    and returns the operators that are not of type 'fetch', in their
    order; on its own result it changes nothing. *)
Theorem remove_fetch_ops_filters :
  forall p : Program.program,
    let kept :=
      Program.mk_program (Program.vars p)
        (filter (fun o => negb (Program.is_fetch o)) (Program.ops p)) in
    Program._remove_fetch_ops p = Ok kept /\
    Program._remove_fetch_ops kept = Ok kept /\
    Forall (fun o => Program.is_fetch o = false) (Program.ops kept).
Proof.
  intros p kept.
  split; [apply remove_fetch_ops_run |]. split.
  - rewrite remove_fetch_ops_run. subst kept. simpl.
    now rewrite filter_idempotent.
  - subst kept. simpl. apply Forall_forall. intros o Ho.
    apply filter_In in Ho as [_ Ho]. now destruct (Program.is_fetch o).
Qed.

(** X20. [_add_fetch_ops] is decided by the answer of
    [has_fetch_operators] on the block that holds the variable
    [fetch_var_name] (created as a persistable FETCH_LIST when the block
    lacks it).  When the answer is that there is none, the result is the
    program followed by one operator of type 'fetch' for each entry of
    [fetch_list], in order, reading the entry into [fetch_var_name] at
    column 0, 1, ...; when there are some, the operators are unchanged;
    when the engine fails, so does [_add_fetch_ops].  [_remove_fetch_ops]
    undoes it: on the result it returns the operators of the program that
    are not of type 'fetch', hence the operators of the program itself
    when none of them is. *)
Theorem add_then_remove_fetch_ops :
  forall (has_fetch_operators :
            Program.program -> list Program.fetch_item -> string ->
            result bool)
    (p : Program.program) (fetch_list : list Program.fetch_item)
    (fetch_var_name : string),
    let vars' :=
      match Tensor.dict_find (Program.vars p) fetch_var_name with
      | Some _ => Program.vars p
      | None =>
          Program.vars p ++
          [(fetch_var_name, Program.mk_var_info "FETCH_LIST" true)]
      end in
    let fetch_ops :=
      map (fun '(i, var) =>
             Program.mk_op "fetch" [("X"%string, [Program.item_name var])]
               [("Out"%string, [fetch_var_name])] [("col"%string, i)])
        (combine (seq 0 (length fetch_list)) fetch_list) in
    (forall has,
        has_fetch_operators (Program.mk_program vars' (Program.ops p))
          fetch_list fetch_var_name = Ok has ->
        let p' :=
          Program.mk_program vars'
            (Program.ops p ++ (if has then [] else fetch_ops)) in
        Program._add_fetch_ops has_fetch_operators p fetch_list
          fetch_var_name = Ok p' /\
        Program._remove_fetch_ops p' =
        Ok (Program.mk_program vars'
              (filter (fun o => negb (Program.is_fetch o))
                 (Program.ops p))) /\
        (Forall (fun o => Program.is_fetch o = false) (Program.ops p) ->
         Program._remove_fetch_ops p' =
         Ok (Program.mk_program vars' (Program.ops p)))) /\
    (forall e,
        has_fetch_operators (Program.mk_program vars' (Program.ops p))
          fetch_list fetch_var_name = Err e ->
        Program._add_fetch_ops has_fetch_operators p fetch_list
          fetch_var_name = Err e) /\
    length fetch_ops = length fetch_list /\
    map Program.op_attrs fetch_ops =
    map (fun i => [("col"%string, i)]) (seq 0 (length fetch_list)) /\
    Forall (fun o => Program.is_fetch o = true) fetch_ops /\
    Tensor.dict_find vars' fetch_var_name <> None.
Proof.
  intros has_fetch_operators p fetch_list fetch_var_name vars' fetch_ops.
  assert (Hall : Forall (fun o => Program.is_fetch o = true) fetch_ops)
    by apply fetch_ops_are_fetch.
  split; [| split; [| split; [| split; [| split]]]].
  - intros has Hhas p'.
    assert (Hfilter :
              filter (fun o => negb (Program.is_fetch o)) (Program.ops p') =
              filter (fun o => negb (Program.is_fetch o)) (Program.ops p)).
    { subst p'. cbn [Program.ops]. rewrite filter_app.
      rewrite (@filter_none _ _ (if has then [] else fetch_ops)),
        app_nil_r; [reflexivity |].
      destruct has; [constructor |].
      apply Forall_forall. intros o Ho. rewrite Forall_forall in Hall.
      now rewrite (Hall o Ho). }
    split.
    + unfold Program._add_fetch_ops. cbv zeta. fold vars'.
      rewrite Hhas. cbn [bind]. subst p'.
      destruct has; cbn [negb].
      * now rewrite app_nil_r.
      * unfold enumerate, range. cbn [Program.ops].
        rewrite add_fetch_loop. reflexivity.
    + rewrite remove_fetch_ops_run, Hfilter. subst p'. cbn [Program.vars].
      split; [reflexivity |].
      intros Hnone. rewrite filter_all; [reflexivity |].
      apply Forall_forall. intros o Ho. rewrite Forall_forall in Hnone.
      now rewrite (Hnone o Ho).
  - intros e He. unfold Program._add_fetch_ops. cbv zeta. fold vars'.
    now rewrite He.
  - subst fetch_ops. now rewrite length_map, length_combine, length_seq,
      Nat.min_id.
  - clear Hall. subst fetch_ops. generalize 0.
    induction fetch_list as [| var fl IH]; intros k; simpl;
      [reflexivity | now rewrite IH].
  - exact Hall.
  - subst vars'.
    destruct (Tensor.dict_find (Program.vars p) fetch_var_name) eqn:E.
    + now rewrite E.
    + now rewrite (dict_find_app_new _ _ _ E).
Qed.

Lemma add_then_remove_fetch_ops_witness :
  Program._add_fetch_ops Samples.no_fetch_operators Samples.two_ops
    [Program.ItemVariable "loss"; Program.ItemName "u"] "fetch"
  = Ok Samples.two_ops_with_fetch /\
  Program._remove_fetch_ops Samples.two_ops_with_fetch =
  Ok (Program.mk_program (Program.vars Samples.two_ops_with_fetch)
        (Program.ops Samples.two_ops)).
Proof.
  destruct (add_then_remove_fetch_ops Samples.no_fetch_operators
              Samples.two_ops
              [Program.ItemVariable "loss"; Program.ItemName "u"] "fetch")
    as (Hrun & _).
  destruct (Hrun false eq_refl) as (Hadd & _ & Hback).
  split; [exact Hadd |].
  apply Hback. repeat constructor.
Defined.
